(** * Glyphs: the glyphstone codec, the transaction builder and the HTLC swaps

    A shallow embedding of [pythonGlyphs.py] and [htlcSwaps.py].

    - Python [int] is [Z]; [&], [|], [<<], [>>] are [Z.land], [Z.lor],
      [Z.shiftl], [Z.shiftr]; [divmod] by a positive number is [Z.div] and
      [Z.modulo].
    - Python [bytes] is [list byte]; iterating a [bytes] object yields the
      unsigned value of each byte ([byte.unsigned]).
    - Python [str] is the list of its code points ([pystr]); [len], indexing
      and [ord] work on code points, as they do in Python.
    - A call that can raise returns a [result]: [Ok v] for a normal return,
      [Raise e] for the exception that leaves the function.
    - The objects of [bitcointx] behave as the library makes them: a
      [CTransaction] is immutable, a [COutPoint] takes a hash of 32 bytes, a
      [CTxOut] takes an [int].  Floating point is not modelled: where the
      source computes with a float, the outcome is an entry of the [node]
      record. *)

From Stdlib Require Import ZArith List Bool Ascii String DecimalString Lia.
From coqutil Require Import Byte.
Import ListNotations.
Local Open Scope Z_scope.

(* ------------------------------------------------------------------------- *)
(** ** Exceptions and results *)

Inductive exn : Type :=
| ValueError
| TypeError
| KeyError
| IndexError
| UnicodeEncodeError
| AttributeError
| NameError
| StructError
| CCoinAddressError.

Inductive result (A : Type) : Type :=
| Ok (a : A)
| Raise (e : exn).
Arguments Ok {A} a.
Arguments Raise {A} e.

Definition bind {A B : Type} (r : result A) (k : A -> result B) : result B :=
  match r with
  | Ok a => k a
  | Raise e => Raise e
  end.

Notation "x <- r ;; k" := (bind r (fun x => k))
  (at level 61, r at next level, right associativity).
Notation "' p <- r ;; k" := (bind r (fun x => let p := x in k))
  (at level 61, p pattern, r at next level, right associativity).

Definition bytes : Type := list byte.
Definition pystr : Type := list Z.

(** [b"..."] for an ASCII literal. *)
Definition b (s : string) : bytes := list_byte_of_string s.

(** A [str] literal made of ASCII characters only. *)
Definition str (s : string) : pystr := map byte.unsigned (list_byte_of_string s).

(** [bytes([x])] for [0 <= x < 256], the only way the source builds a byte. *)
Definition bytes1 (x : Z) : bytes := [byte.of_Z x].

(* ------------------------------------------------------------------------- *)
(** ** Varint codec *)

(** The [while i > 127] loop of [encode_varint].  An iteration shifts [i]
    right by seven bits, so [fuel] iterations are enough for [i < 2^(7+fuel)];
    [encode_varint] passes [Z.log2 i]. *)
Fixpoint encode_varint_loop (fuel : nat) (i : Z) (encoded : bytes) : bytes :=
  match fuel with
  | O => encoded ++ bytes1 i
  | S fuel' =>
      if 127 <? i
      then encode_varint_loop fuel' (Z.shiftr i 7)
             (encoded ++ bytes1 (Z.lor (Z.land i 0x7F) 0x80))
      else encoded ++ bytes1 i
  end.

(** The bytes [encode_varint] returns for [i >= 0]. *)
Definition varint (i : Z) : bytes :=
  encode_varint_loop (Z.to_nat (Z.log2 i)) i [].

Definition encode_varint (i : Z) : result bytes :=
  if i <? 0 then Raise ValueError else Ok (varint i).

(** The [for byte in encoded] loop of [decode_varint]: the state is
    [decoded], [shift] and the bytes the iterator has not yet handed out.
    The loop ends at the [break] or when the iterator is exhausted; the
    unread bytes are kept next to [decoded] so that statements can speak
    about them. *)
Fixpoint decode_varint_loop (encoded : bytes) (decoded shift : Z) : Z * bytes :=
  match encoded with
  | [] => (decoded, [])
  | byte :: rest =>
      let decoded := Z.lor decoded (Z.shiftl (Z.land (byte.unsigned byte) 0x7F) shift) in
      if Z.land (byte.unsigned byte) 0x80 =? 0
      then (decoded, rest)
      else decode_varint_loop rest decoded (shift + 7)
  end.

(** [decode_varint] returns [decoded] alone, and has no [raise]. *)
Definition decode_varint (encoded : bytes) : result Z :=
  Ok (fst (decode_varint_loop encoded 0 0)).

(** The first [k] varints of [data], each read by the loop of
    [decode_varint] from where the one before it ended. *)
Fixpoint read_varints (k : nat) (data : bytes) : list Z :=
  match k with
  | O => []
  | S k' =>
      let '(value, rest) := decode_varint_loop data 0 0 in
      value :: read_varints k' rest
  end.

(** The continuation bit of a byte. *)
Definition continues (byte : byte) : bool :=
  negb (Z.land (byte.unsigned byte) 0x80 =? 0).

(** The number a run of bytes spells in base 128, low group first. *)
Fixpoint base128 (bs : bytes) : Z :=
  match bs with
  | [] => 0
  | byte :: rest => Z.land (byte.unsigned byte) 0x7F + 128 * base128 rest
  end.

(** The decoder as the specification words it: the value with the rest of
    the stream, [Truncated] when the stream ends before a byte without the
    continuation bit, [Overflow] when a byte is reached with more than 63
    bits of shift accumulated. *)
Inductive varint_error : Type :=
| Truncated
| Overflow.

Fixpoint decode_spec_loop (stream : bytes) (value shift : Z)
  : varint_error + Z * bytes :=
  match stream with
  | [] => inl Truncated
  | byte :: rest =>
      if 63 <? shift then inl Overflow
      else
        let value := value + Z.land (byte.unsigned byte) 0x7F * 2 ^ shift in
        if continues byte then decode_spec_loop rest value (shift + 7)
        else inr (value, rest)
  end.

Definition decode_spec (stream : bytes) : varint_error + Z * bytes :=
  decode_spec_loop stream 0 0.

(* ------------------------------------------------------------------------- *)
(** ** Symbol codec *)

Definition COIN : Z := 100000000.
Definition DEFAULT_SYMBOL_DIVISIBILITY : Z := 8.
Definition DEFAULT_CURRENCY_SYMBOL : pystr := [0xA4].
Definition MAX_GLYPH_NAME_LENGTH : Z := 26.
Definition BASE_OFFSET : Z := 1.

(** The spacer [•], U+2022. *)
Definition spacer : Z := 0x2022.
Definition ord_A : Z := 65.
Definition alphabet : pystr := str "ABCDEFGHIJKLMNOPQRSTUVWXYZ".

Definition len {A : Type} (l : list A) : Z := Z.of_nat (List.length l).

(** [s[i]] for [0 <= i < len s]; the source never indexes outside. *)
Definition getitem (s : pystr) (i : Z) : Z := nth (Z.to_nat i) s 0.

Definition enumerate {A : Type} (l : list A) : list (Z * A) :=
  combine (map Z.of_nat (seq 0 (List.length l))) l.

Section SymbolCodec.

(** [str.isalpha] and [str.isupper] on a one-character string, given by
    its code point.  They read the Unicode character database, which is
    not part of the repository. *)
Variables isalpha isupper : Z -> bool.

Fixpoint is_valid_glyph_name_loop (name : pystr) (items : list (Z * Z))
         (letter_count : Z) : bool :=
  match items with
  | [] => (0 <? letter_count) && (letter_count <=? MAX_GLYPH_NAME_LENGTH)
  | (i, char) :: items' =>
      if isalpha char && isupper char
      then is_valid_glyph_name_loop name items' (letter_count + 1)
      else if char =? spacer
      then
        if (i =? 0) || (i =? len name - 1)
           || (getitem name (i - 1) =? spacer) || (getitem name (i + 1) =? spacer)
        then false
        else is_valid_glyph_name_loop name items' letter_count
      else false
  end.

Definition is_valid_glyph_name (name : pystr) : bool :=
  if (len name =? 0) || (MAX_GLYPH_NAME_LENGTH <? len name)
  then false
  else is_valid_glyph_name_loop name (enumerate name) 0.

Definition symbol_value (clean_symbol : pystr) : Z :=
  fold_left (fun value '(i, c) => value + (c - ord_A + BASE_OFFSET) * 26 ^ i)
            (enumerate (rev clean_symbol)) 0.

Definition symbol_to_int (symbol : pystr) : result Z :=
  if negb (is_valid_glyph_name symbol)
  then Raise ValueError
  else
    let clean_symbol := filter (fun c => negb (c =? spacer)) symbol in
    Ok (symbol_value clean_symbol).

End SymbolCodec.

(** The [while num > 0] loop of [int_to_symbol].  An iteration at least
    halves [num], so [fuel] iterations are enough for [num < 2^fuel];
    [int_to_symbol] passes [Z.log2 num + 1]. *)
Fixpoint int_to_symbol_loop (fuel : nat) (num : Z) (symbol : pystr) : pystr :=
  match fuel with
  | O => symbol
  | S fuel' =>
      if 0 <? num
      then
        let remainder := (num - BASE_OFFSET) mod 26 in
        let num := (num - BASE_OFFSET) / 26 in
        int_to_symbol_loop fuel' num (getitem alphabet remainder :: symbol)
      else symbol
  end.

Definition int_to_symbol (num : Z) : result pystr :=
  if num <? 0 then Raise ValueError
  else if (BASE_OFFSET =? 1) && (num =? 0) then Raise ValueError
  else if (BASE_OFFSET =? 0) && (num =? 0) then Ok [getitem alphabet 0]
  else Ok (int_to_symbol_loop (S (Z.to_nat (Z.log2 num))) num []).

(* ------------------------------------------------------------------------- *)
(** ** UTF-8 *)

(** [chr(c).encode('utf-8')].  A [str] holds code points below 0x110000;
    the surrogates cannot be encoded. *)
Definition utf8_char (c : Z) : result bytes :=
  if (c <? 0) || (0x110000 <=? c) then Raise ValueError
  else if c <? 0x80 then Ok (bytes1 c)
  else if c <? 0x800 then
    Ok (bytes1 (Z.lor 0xC0 (Z.shiftr c 6)) ++ bytes1 (Z.lor 0x80 (Z.land c 0x3F)))
  else if c <? 0x10000 then
    if (0xD800 <=? c) && (c <=? 0xDFFF) then Raise UnicodeEncodeError
    else
      Ok (bytes1 (Z.lor 0xE0 (Z.shiftr c 12))
          ++ bytes1 (Z.lor 0x80 (Z.land (Z.shiftr c 6) 0x3F))
          ++ bytes1 (Z.lor 0x80 (Z.land c 0x3F)))
  else
    Ok (bytes1 (Z.lor 0xF0 (Z.shiftr c 18))
        ++ bytes1 (Z.lor 0x80 (Z.land (Z.shiftr c 12) 0x3F))
        ++ bytes1 (Z.lor 0x80 (Z.land (Z.shiftr c 6) 0x3F))
        ++ bytes1 (Z.lor 0x80 (Z.land c 0x3F))).

Fixpoint encode_utf8 (s : pystr) : result bytes :=
  match s with
  | [] => Ok []
  | c :: s' => x <- utf8_char c ;; y <- encode_utf8 s' ;; Ok (x ++ y)
  end.

(* ------------------------------------------------------------------------- *)
(** ** Glyphstone payloads *)

(** Truth value of an optional integer argument ([None] and [0] are false). *)
Definition truthy (o : option Z) : bool :=
  match o with
  | Some v => negb (v =? 0)
  | None => false
  end.

(** [if field: glyphstone_data += tag + self.encode_varint(field)]. *)
Definition add_tagged (tag : string) (field : option Z) (glyphstone_data : bytes)
  : result bytes :=
  match field with
  | Some v =>
      if v =? 0 then Ok glyphstone_data
      else e <- encode_varint v ;; Ok (glyphstone_data ++ b tag ++ e)
  | None => Ok glyphstone_data
  end.

Definition _add_optional_mint_params (glyphstone_data : bytes) (symbol : pystr)
           (premine : Z)
           (mint_cap mint_amount start_height end_height start_offset end_offset : option Z)
  : result bytes :=
  glyphstone_data <-
    (match symbol with
     | [] => Ok glyphstone_data
     | _ => s <- encode_utf8 symbol ;; Ok (glyphstone_data ++ s)
     end) ;;
  glyphstone_data <-
    (if premine =? 0 then Ok glyphstone_data
     else e <- encode_varint premine ;; Ok (glyphstone_data ++ e)) ;;
  glyphstone_data <- add_tagged "C" mint_cap glyphstone_data ;;
  glyphstone_data <- add_tagged "A" mint_amount glyphstone_data ;;
  glyphstone_data <- add_tagged "S" start_height glyphstone_data ;;
  glyphstone_data <- add_tagged "H" end_height glyphstone_data ;;
  glyphstone_data <- add_tagged "O" start_offset glyphstone_data ;;
  glyphstone_data <- add_tagged "F" end_offset glyphstone_data ;;
  Ok glyphstone_data.

(* ------------------------------------------------------------------------- *)
(** ** Reading a transfer glyphstone *)

(** [value, data = self.decode_varint(data)].  What [decode_varint] returns
    is an [int], and unpacking an [int] raises [TypeError]. *)
Definition unpack_pair (value : Z) : result (Z * bytes) := Raise TypeError.


(** [str(n)] in decimal. *)
Definition str_of_int (n : Z) : string := NilZero.string_of_int (Z.to_int n).

Definition decode_glyph_balance (glyphstone_data : bytes) (glyph_id : string)
  : result Z :=
  match glyphstone_data with
  | [] => Raise IndexError
  | tag :: data =>
      if negb (byte.unsigned tag =? 84) then Raise ValueError
      else
        value <- decode_varint data ;;
        '(block_height, data) <- unpack_pair value ;;
        value <- decode_varint data ;;
        '(tx_index, data) <- unpack_pair value ;;
        if negb (String.eqb
                   (str_of_int block_height ++ ":" ++ str_of_int tx_index)%string
                   glyph_id)
        then Raise ValueError
        else
          value <- decode_varint data ;;
          '(balance, _) <- unpack_pair value ;;
          Ok balance
  end.

(* ------------------------------------------------------------------------- *)
(** ** Scripts, outputs and transactions *)

Definition OP_0 : byte := Byte.x00.
Definition OP_1 : byte := Byte.x51.
Definition OP_13 : byte := Byte.x5d.
Definition OP_RETURN : byte := Byte.x6a.
Definition OP_DUP : byte := Byte.x76.
Definition OP_HASH160 : byte := Byte.xa9.
Definition OP_EQUALVERIFY : byte := Byte.x88.
Definition OP_CHECKSIG : byte := Byte.xac.
Definition OP_IF : byte := Byte.x63.
Definition OP_ELSE : byte := Byte.x67.
Definition OP_CHECKLOCKTIMEVERIFY : byte := Byte.xb1.
Definition OP_DROP : byte := Byte.x75.
Definition OP_ENDIF : byte := Byte.x68.

(** What a script is built from: an opcode or a [bytes] object to push. *)
Inductive script_item : Type :=
| Op (op : byte)
| Data (d : bytes).

(** Little-endian bytes of [n], [width] of them. *)
Fixpoint le_bytes (width : nat) (n : Z) : bytes :=
  match width with
  | O => []
  | S w => byte.of_Z n :: le_bytes w (Z.shiftr n 8)
  end.

(** The push of a [bytes] object: a direct push below 0x4c bytes, then
    OP_PUSHDATA1, OP_PUSHDATA2 and OP_PUSHDATA4. *)
Definition pushdata (d : bytes) : bytes :=
  if len d <? 0x4c then bytes1 (len d) ++ d
  else if len d <=? 0xff then [Byte.x4c] ++ bytes1 (len d) ++ d
  else if len d <=? 0xffff then [Byte.x4d] ++ le_bytes 2 (len d) ++ d
  else [Byte.x4e] ++ le_bytes 4 (len d) ++ d.

(** [CScript([...])]: a script is the [bytes] of its serialised items. *)
Definition CScript (items : list script_item) : bytes :=
  flat_map (fun it => match it with Op op => [op] | Data d => pushdata d end) items.

(** A [CTxOut] holds an [int]: the constructor raises [TypeError] on any
    other value, so [nValue] is an integer. *)
Record CTxOut : Type := mkCTxOut { nValue : Z; scriptPubKey : bytes }.
Record CTxIn : Type := mkCTxIn { prevout_hash : bytes; prevout_n : Z }.
Record CTransaction : Type := mkCTransaction { vin : list CTxIn; vout : list CTxOut }.

(** [CTxIn(COutPoint(hash, n))]: [COutPoint] raises [ValueError] unless the
    hash has 32 bytes and [n] fits 32 bits. *)
Definition COutPoint (hash : bytes) (n : Z) : result CTxIn :=
  if negb (len hash =? 32) then Raise ValueError
  else if negb ((0 <=? n) && (n <=? 0xffffffff)) then Raise ValueError
  else Ok (mkCTxIn hash n).

(** [tx.vout.append(output)]: the [vout] of a [CTransaction] is a tuple,
    which has no [append]. *)
Definition vout_append (tx : CTransaction) (output : CTxOut) : result CTransaction :=
  Raise AttributeError.

(** [tx.vout = outputs]: a [CTransaction] is immutable and refuses the
    assignment. *)
Definition vout_assign (tx : CTransaction) (outputs : list CTxOut)
  : result CTransaction :=
  Raise AttributeError.

(** [script_pubkey.to_bytes()]: a [CScript] is a [bytes] object, which has
    no [to_bytes]. *)
Definition to_bytes (script : bytes) : result bytes := Raise AttributeError.

(** Whether [tx.serialize()] can pack every output value into the eight
    bytes of a signed integer; [struct.pack] raises [struct.error] when it
    cannot. *)
Definition packable (tx : CTransaction) : bool :=
  forallb (fun output => (- 2 ^ 63 <=? nValue output) && (nValue output <? 2 ^ 63))
    (vout tx).

Definition create_glyphstone_output (glyphstone_data : bytes) : CTxOut :=
  mkCTxOut 0 (CScript [Op OP_RETURN; Op OP_13; Data glyphstone_data]).

(** [script[i]], read only after [len(script) < 2] has been found false. *)
Definition script_at (script : bytes) (i : nat) : byte := nth i script Byte.x00.

Definition is_cenotaph (glyphstone_output : CTxOut) : bool :=
  let script := scriptPubKey glyphstone_output in
  (len script <? 2)
  || negb (Byte.eqb (script_at script 0) OP_RETURN)
  || negb (Byte.eqb (script_at script 1) OP_13).

(** [CTxOut(0, CScript([OP_RETURN]))], the output that burns the input glyphs. *)
Definition burn_output : CTxOut := mkCTxOut 0 (CScript [Op OP_RETURN]).

(** Truth value of an optional [str] argument ([None] and [''] are false). *)
Definition nonempty (o : option string) : bool :=
  match o with
  | Some s => negb (String.eqb s "")
  | None => false
  end.

(* ------------------------------------------------------------------------- *)
(** ** The node and the libraries behind it *)

(** An entry of [listunspent].  The node reports [amount] in BTC with eight
    decimals; [utxo_amount] is the same amount counted in satoshi, so that
    [utxo['amount'] >= 0.0001] reads [10000 <= utxo_amount]. *)
Record utxo : Type := mkUtxo {
  utxo_txid : bytes;
  utxo_vout : Z;
  utxo_amount : Z;
  utxo_address : string
}.

(** The dictionary [decode_glyphstone] fills; a key that is absent is [None]. *)
Record glyph_info : Type := mkGlyphInfo {
  etch_height : option Z;
  minted_count : option Z;
  divisibility : option Z;
  mint_cap : option Z;
  mint_amount : option Z;
  start_height : option Z;
  end_height : option Z;
  start_offset : option Z;
  end_offset : option Z
}.

(** What the code asks of Bitcoin Core through [self.proxy], of
    [bitcointx], [coincurve] and [hashlib], and the answers of the chain
    queries [get_glyph_info], [get_glyph_balance] and [get_input_amount],
    which read blocks and transactions held by the node.  A [Raise] is the
    exception the call ends with.  The theorems hold for every node; in the
    source the two glyph queries decode what the node returns with
    [decode_glyphstone] and [decode_glyph_balance].

    The last two entries stand for floating point.
    [wallet_change_positive u destination_value fee] is the test
    [utxo['amount'] * COIN - destination_value - fee > 0] on the amount of a
    wallet output, which is no [int]; [int_of_float_product amount d] is
    [int(amount * (10**d))] for a negative [d], where [10**d] is a float. *)
Record node : Type := mkNode {
  listunspent : result (list utxo);
  getblockcount : Z;
  getnewaddress : string;
  getaddressinfo_pubkey : string -> result string;
  signrawtransactionwithwallet_sendrawtransaction : CTransaction -> result string;
  serialize_len : CTransaction -> Z;
  CCoinAddress : string -> result bytes;
  P2TRCoinAddress_from_scriptPubKey : bytes -> result bytes;
  PublicKey_from_hex : string -> result bytes;
  sha256 : string -> bytes;
  fromhex : string -> result bytes;
  int_of_str : string -> result Z;
  get_input_amount : CTxIn -> result Z;
  get_glyph_info : string -> result glyph_info;
  get_glyph_balance : string -> Z -> string -> result Z;
  wallet_change_positive : utxo -> Z -> Z -> result bool;
  int_of_float_product : Z -> Z -> result Z
}.

(** [s.split(':')]. *)
Fixpoint split_colon (s : string) : list string :=
  match s with
  | EmptyString => [EmptyString]
  | String c s' =>
      if Ascii.eqb c ":"%char then EmptyString :: split_colon s'
      else
        match split_colon s' with
        | [] => [String c EmptyString]
        | w :: ws => String c w :: ws
        end
  end.

(** [block_height, tx_index = map(int, glyph_id.split(':'))].  The
    unpacking converts the parts one by one and raises [ValueError] when
    there are not exactly two of them. *)
Definition parse_glyph_id (nd : node) (glyph_id : string) : result (Z * Z) :=
  match split_colon glyph_id with
  | [x; y] =>
      block_height <- int_of_str nd x ;;
      tx_index <- int_of_str nd y ;;
      Ok (block_height, tx_index)
  | x :: y :: z :: _ =>
      _ <- int_of_str nd x ;; _ <- int_of_str nd y ;; _ <- int_of_str nd z ;;
      Raise ValueError
  | [x] => _ <- int_of_str nd x ;; Raise ValueError
  | [] => Raise ValueError
  end.

Definition select_utxo (nd : node) (amount_needed : Z) : result utxo :=
  match listunspent nd with
  | Raise _ => Raise ValueError
  | Ok available_utxos =>
      match find (fun u => amount_needed <=? utxo_amount u) available_utxos with
      | Some u => _ <- CCoinAddress nd (utxo_address u) ;; Ok u
      | None => Raise ValueError
      end
  end.

Definition create_taproot_address (nd : node) (bitcoin_address nostr_pubkey : string)
  : result bytes :=
  script_pubkey <- CCoinAddress nd bitcoin_address ;;
  key <- fromhex nd nostr_pubkey ;;
  let nostr_leaf := CScript [Op OP_1; Data key] in
  script_bytes <- to_bytes script_pubkey ;;
  leaf_bytes <- to_bytes nostr_leaf ;;
  let taproot_script := CScript [Op OP_1; Data script_bytes; Data leaf_bytes] in
  P2TRCoinAddress_from_scriptPubKey nd taproot_script.

(** [int(amount * (10**divisibility))]: integer arithmetic when the
    divisibility is not negative. *)
Definition atomic_units (nd : node) (amount divisibility : Z) : result Z :=
  if 0 <=? divisibility then Ok (amount * 10 ^ divisibility)
  else int_of_float_product nd amount divisibility.

(** [len(tx.serialize())]. *)
Definition serialize_size (nd : node) (tx : CTransaction) : result Z :=
  if packable tx then Ok (serialize_len nd tx) else Raise StructError.

(** The value of the input as a builder holds it: the [int] that
    [get_input_amount] returned, or [utxo['amount'] * COIN] for an output of
    the wallet. *)
Inductive input_value : Type :=
| Satoshi (v : Z)
| WalletAmount (u : utxo).

(** [change > 0], for [change = input_value - destination_value - fee]. *)
Definition change_positive (nd : node) (input : input_value)
           (destination_value fee : Z) : result bool :=
  match input with
  | Satoshi v => Ok (0 <? v - destination_value - fee)
  | WalletAmount u => wallet_change_positive nd u destination_value fee
  end.

(** The [if change_address:] block of the two builders.  With a positive
    change it makes the address, then the change output, which [CTxOut]
    refuses for the amount of a wallet output, then appends the output to
    [tx.vout]. *)
Definition add_change (nd : node) (tx : CTransaction) (input : input_value)
           (destination_value fee : Z) (change_address : option string)
  : result CTransaction :=
  match change_address with
  | Some a =>
      if String.eqb a "" then Ok tx
      else
        positive <- change_positive nd input destination_value fee ;;
        if positive
        then
          script <- CCoinAddress nd a ;;
          match input with
          | Satoshi v =>
              let change_output := mkCTxOut (v - destination_value - fee) script in
              vout_append tx change_output
          | WalletAmount _ => Raise TypeError
          end
        else Ok tx
  | None => Ok tx
  end.

(** [create_taproot_address(a, k) if k else CCoinAddress(a)], taken to its
    [to_scriptPubKey()]. *)
Definition destination_script (nd : node) (destination_address : string)
           (nostr_pubkey : option string) : result bytes :=
  match nostr_pubkey with
  | Some k =>
      if String.eqb k "" then CCoinAddress nd destination_address
      else create_taproot_address nd destination_address k
  | None => CCoinAddress nd destination_address
  end.

(** [dict.get(key, default)] *)
Definition get (field : option Z) (default : Z) : Z :=
  match field with
  | Some v => v
  | None => default
  end.

(** [dict[key]] *)
Definition subscript (field : option Z) : result Z :=
  match field with
  | Some v => Ok v
  | None => Raise KeyError
  end.

(** The upper end of the mint window: a height or [float('inf')]. *)
Inductive bound : Type :=
| Fin (h : Z)
| Inf.

Definition lt_bound (h : Z) (e : bound) : bool :=
  match e with
  | Fin e => h <? e
  | Inf => true
  end.

(* ------------------------------------------------------------------------- *)
(** ** pythonGlyphs.py

    The functions of the file are read as the methods of [GlyphProtocol]
    they are called as, at whatever depth the file indents them. *)

Module PythonGlyphs.

Definition is_mint_open (glyph_info : glyph_info) (current_height : Z) : result bool :=
  capped <-
    (if truthy (mint_cap glyph_info)
     then
       match minted_count glyph_info with
       | Some minted => Ok (get (mint_cap glyph_info) 0 <=? minted)
       | None => Raise TypeError
       end
     else Ok false) ;;
  if capped then Ok false
  else
    let etch_height := get (etch_height glyph_info) 0 in
    let start_height :=
      if truthy (start_height glyph_info) then get (start_height glyph_info) 0
      else if truthy (start_offset glyph_info)
           then etch_height + get (start_offset glyph_info) 0
           else 0 in
    let end_height :=
      if truthy (end_height glyph_info) then Fin (get (end_height glyph_info) 0)
      else if truthy (end_offset glyph_info)
           then Fin (etch_height + get (end_offset glyph_info) 0)
           else Inf in
    Ok ((start_height <=? current_height) && lt_bound current_height end_height).

(** The transaction [_construct_and_broadcast_transaction] has built when
    it reaches [if live:]. *)
Definition construct_transaction (nd : node) (glyphstone_output : CTxOut)
           (destination_output : option CTxOut) (change_address : option string)
           (fee_per_byte : Z) (input_txin : option CTxIn) : result CTransaction :=
  '(txin, input_value) <-
    (match input_txin with
     | None =>
         utxo <- select_utxo nd 10000 ;;
         txin <- COutPoint (utxo_txid utxo) (utxo_vout utxo) ;;
         Ok (txin, WalletAmount utxo)
     | Some txin =>
         input_value <- get_input_amount nd txin ;;
         Ok (txin, Satoshi input_value)
     end) ;;
  let outputs :=
    match destination_output with
    | Some d => [glyphstone_output; d]
    | None => [glyphstone_output]
    end in
  let tx := mkCTransaction [txin] outputs in
  tx_size <- serialize_size nd tx ;;
  let fee := tx_size * fee_per_byte in
  tx <- add_change nd tx input_value
          (match destination_output with Some d => nValue d | None => 0 end)
          fee change_address ;;
  if is_cenotaph glyphstone_output
  then vout_assign tx [burn_output]
  else Ok tx.

(** The result pairs the transaction that was signed and sent, or
    printed, with the value returned: the txid, or [None]. *)
Definition _construct_and_broadcast_transaction (nd : node)
           (glyphstone_output : CTxOut) (destination_output : option CTxOut)
           (change_address : option string) (fee_per_byte : Z) (live : bool)
           (input_txin : option CTxIn) : result (CTransaction * option string) :=
  tx <- construct_transaction nd glyphstone_output destination_output
          change_address fee_per_byte input_txin ;;
  if live
  then
    match signrawtransactionwithwallet_sendrawtransaction nd tx with
    | Ok txid => Ok (tx, Some txid)
    | Raise _ => Raise ValueError
    end
  else Ok (tx, None).

Definition _create_glyph_output (nd : node) (amount divisibility : Z)
           (destination_address nostr_pubkey : option string)
  : result (option CTxOut) :=
  if 0 <? amount
  then
    match destination_address with
    | Some a =>
        if String.eqb a "" then Raise ValueError
        else
          script <- destination_script nd a nostr_pubkey ;;
          output_value <- atomic_units nd amount divisibility ;;
          Ok (Some (mkCTxOut output_value script))
    | None => Raise ValueError
    end
  else Ok None.

Section Etch.

Variables isalpha isupper : Z -> bool.

(** The glyphstone data of [etch_glyph]. *)
Definition etch_glyphstone_data (name : pystr) (divisibility : Z) (symbol : pystr)
           (premine : Z)
           (mint_cap mint_amount start_height end_height start_offset end_offset : option Z)
  : result bytes :=
  name_int <- symbol_to_int isalpha isupper name ;;
  e_name <- encode_varint name_int ;;
  e_div <- encode_varint divisibility ;;
  let glyphstone_data := b "E" ++ e_name ++ e_div in
  _add_optional_mint_params glyphstone_data symbol premine mint_cap mint_amount
    start_height end_height start_offset end_offset.

Definition etch_glyph (nd : node) (name : pystr) (divisibility : Z) (symbol : pystr)
           (premine : Z)
           (mint_cap mint_amount start_height end_height start_offset end_offset : option Z)
           (destination_address change_address : option string)
           (fee_per_byte : Z) (live : bool) (nostr_pubkey : option string)
  : result (CTransaction * option string) :=
  glyphstone_data <- etch_glyphstone_data name divisibility symbol premine
                       mint_cap mint_amount start_height end_height
                       start_offset end_offset ;;
  let glyphstone_output := create_glyphstone_output glyphstone_data in
  destination_output <- _create_glyph_output nd premine divisibility
                          destination_address nostr_pubkey ;;
  _construct_and_broadcast_transaction nd glyphstone_output destination_output
    change_address fee_per_byte live None.

End Etch.

(** The glyphstone data of [mint_glyph]. *)
Definition mint_glyphstone_data (block_height tx_index amount : Z) : result bytes :=
  e_height <- encode_varint block_height ;;
  e_index <- encode_varint tx_index ;;
  e_amount <- encode_varint amount ;;
  Ok (b "M" ++ e_height ++ e_index ++ e_amount).

Definition mint_glyph (nd : node) (glyph_id : string) (amount : Z)
           (destination_address : string) (change_address : option string)
           (fee_per_byte : Z) (live : bool) (nostr_pubkey : option string)
  : result (CTransaction * option string) :=
  glyph_info <- get_glyph_info nd glyph_id ;;
  let current_height := getblockcount nd in
  open <- is_mint_open glyph_info current_height ;;
  if negb open then Raise ValueError
  else
    fixed <- subscript (mint_amount glyph_info) ;;
    if negb (fixed =? 0) && negb (amount =? fixed) then Raise ValueError
    else
      '(block_height, tx_index) <- parse_glyph_id nd glyph_id ;;
      glyphstone_data <- mint_glyphstone_data block_height tx_index amount ;;
      let glyphstone_output := create_glyphstone_output glyphstone_data in
      d <- subscript (divisibility glyph_info) ;;
      output_value <- atomic_units nd amount d ;;
      script <- destination_script nd destination_address nostr_pubkey ;;
      let destination_output := mkCTxOut output_value script in
      _construct_and_broadcast_transaction nd glyphstone_output
        (Some destination_output) change_address fee_per_byte live None.

(** The glyphstone data of [transfer_glyph]. *)
Definition transfer_glyphstone_data (block_height tx_index amount : Z) : result bytes :=
  e_height <- encode_varint block_height ;;
  e_index <- encode_varint tx_index ;;
  e_amount <- encode_varint amount ;;
  e_output <- encode_varint 1 ;;
  Ok (b "T" ++ e_height ++ e_index ++ e_amount ++ e_output).

(** The output [transfer_glyph] sends the glyphs to, or burns them with. *)
Definition transfer_destination_output (nd : node) (amount : Z)
           (destination_address : string) (nostr_pubkey : option string)
  : result CTxOut :=
  if String.prefix "OP_RETURN" destination_address
  then Ok (mkCTxOut 0 (CScript [Op OP_RETURN]))
  else
    script <- destination_script nd destination_address nostr_pubkey ;;
    Ok (mkCTxOut amount script).

Definition transfer_glyph (nd : node) (glyph_id input_txid : string) (input_vout amount : Z)
           (destination_address : string) (change_address : option string)
           (fee_per_byte : Z) (live : bool) (nostr_pubkey : option string)
  : result (CTransaction * option string) :=
  '(block_height, tx_index) <- parse_glyph_id nd glyph_id ;;
  input_glyphs <- get_glyph_balance nd input_txid input_vout glyph_id ;;
  if input_glyphs <? amount then Raise ValueError
  else
    glyphstone_data <- transfer_glyphstone_data block_height tx_index amount ;;
    let glyphstone_output := create_glyphstone_output glyphstone_data in
    txid <- fromhex nd input_txid ;;
    txin <- COutPoint (rev txid) input_vout ;;
    destination_output <- transfer_destination_output nd amount destination_address
                            nostr_pubkey ;;
    _construct_and_broadcast_transaction nd glyphstone_output
      (Some destination_output) change_address fee_per_byte live (Some txin).

End PythonGlyphs.

(* ------------------------------------------------------------------------- *)
(** ** htlcSwaps.py

    The class repeats the codec of [pythonGlyphs.py] word for word; what
    differs is below.  The file imports from [bitcointx.core],
    [bitcointx.core.script], [bitcointx.wallet] and [bitcointx.rpc] by
    name: it binds neither [bitcointx] itself nor [OP_RETURN] nor [OP_13],
    so that reading one of them raises [NameError], and its class has no
    [get_input_amount]. *)

Module HtlcSwaps.

Definition create_htlc_script (receiver_pubkey sender_pubkey secret_hash : bytes)
           (timelock : Z) : bytes :=
  CScript [
    Op OP_DUP;
    Op OP_HASH160;
    Data secret_hash;
    Op OP_EQUALVERIFY;
    Op OP_CHECKSIG;
    Op OP_IF;
    Data receiver_pubkey;
    Op OP_ELSE;
    Op OP_CHECKLOCKTIMEVERIFY;
    Op OP_DROP;
    Data sender_pubkey;
    Op OP_ENDIF;
    Op OP_CHECKSIG
  ].

(** [select_utxo]: the body of [pythonGlyphs.py], but whatever is raised
    inside the [try] meets [except bitcointx.rpc.JSONRPCError], and
    evaluating that name raises [NameError]. *)
Definition select_utxo (nd : node) (amount_needed : Z) : result utxo :=
  match listunspent nd with
  | Raise _ => Raise NameError
  | Ok available_utxos =>
      match find (fun u => amount_needed <=? utxo_amount u) available_utxos with
      | Some u =>
          match CCoinAddress nd (utxo_address u) with
          | Ok _ => Ok u
          | Raise _ => Raise NameError
          end
      | None => Raise NameError
      end
  end.

(** [len(script) < 2 or script[0] != OP_RETURN or script[1] != OP_13]: the
    second test reads [OP_RETURN]. *)
Definition is_cenotaph (glyphstone_output : CTxOut) : result bool :=
  let script := scriptPubKey glyphstone_output in
  if len script <? 2 then Ok true else Raise NameError.

(** [CTxOut(0, CScript([OP_RETURN]))] *)
Definition burn_output : result CTxOut := Raise NameError.

(** The transaction [_construct_and_broadcast_transaction] has built when
    it reaches [if live:]. *)
Definition construct_transaction (nd : node) (glyphstone_output : CTxOut)
           (change_address : option string) (fee_per_byte : Z)
           (input_txin : option CTxIn) : result CTransaction :=
  '(txin, input_value) <-
    (match input_txin with
     | None =>
         utxo <- select_utxo nd 10000 ;;
         txin <- COutPoint (utxo_txid utxo) (utxo_vout utxo) ;;
         Ok (txin, WalletAmount utxo)
     | Some txin => Raise AttributeError
     end) ;;
  let outputs := [glyphstone_output] in
  let tx := mkCTransaction [txin] outputs in
  tx_size <- serialize_size nd tx ;;
  let fee := tx_size * fee_per_byte in
  tx <- add_change nd tx input_value 0 fee change_address ;;
  cenotaph <- is_cenotaph glyphstone_output ;;
  if cenotaph
  then
    burn_output <- burn_output ;;
    vout_assign tx [burn_output]
  else Ok tx.

Definition _construct_and_broadcast_transaction (nd : node)
           (glyphstone_output : CTxOut) (change_address : option string)
           (fee_per_byte : Z) (live : bool) (input_txin : option CTxIn)
  : result (CTransaction * option string) :=
  tx <- construct_transaction nd glyphstone_output change_address fee_per_byte
          input_txin ;;
  if live
  then
    match signrawtransactionwithwallet_sendrawtransaction nd tx with
    | Ok txid => Ok (tx, Some txid)
    | Raise _ => Raise ValueError
    end
  else Ok (tx, None).

(** The four values an HTLC is made from. *)
Record htlc_terms : Type := mkTerms {
  receiver_pubkey : bytes;
  sender_pubkey : bytes;
  secret_hash : bytes;
  timelock : Z
}.

Definition htlc_script_of (t : htlc_terms) : bytes :=
  create_htlc_script (receiver_pubkey t) (sender_pubkey t) (secret_hash t) (timelock t).

(** [secret_hash], [receiver_pubkey], [sender_pubkey] and [timelock] as
    [initiate_swap] computes them. *)
Definition initiate_terms (nd : node) (destination_address counterparty_pubkey secret : string)
           (timelock : Z) : result htlc_terms :=
  let secret_hash := sha256 nd secret in
  receiver_pubkey <- PublicKey_from_hex nd counterparty_pubkey ;;
  own <- getaddressinfo_pubkey nd destination_address ;;
  sender_pubkey <- PublicKey_from_hex nd own ;;
  Ok (mkTerms receiver_pubkey sender_pubkey secret_hash timelock).

Definition initiate_swap (nd : node) (glyph_id : string) (amount : Z)
           (destination_address counterparty_pubkey secret : string) (timelock : Z)
  : result (CTransaction * option string) :=
  terms <- initiate_terms nd destination_address counterparty_pubkey secret timelock ;;
  let htlc_script := htlc_script_of terms in
  _construct_and_broadcast_transaction nd
    (mkCTxOut (amount * 10 ^ 8) htlc_script)
    (Some (getnewaddress nd)) 1 true None.

(** [counterparty_htlc_details]. *)
Record htlc_details : Type := mkDetails {
  details_secret_hash : string;
  details_receiver_pubkey : string;
  details_timelock : Z
}.

(** [secret_hash], [receiver_pubkey], [sender_pubkey] and [timelock] as
    [participate_in_swap] computes them. *)
Definition participate_terms (nd : node) (counterparty_htlc_details : htlc_details)
           (destination_address : string) : result htlc_terms :=
  secret_hash <- fromhex nd (details_secret_hash counterparty_htlc_details) ;;
  receiver_pubkey <-
    PublicKey_from_hex nd (details_receiver_pubkey counterparty_htlc_details) ;;
  own <- getaddressinfo_pubkey nd destination_address ;;
  sender_pubkey <- PublicKey_from_hex nd own ;;
  let timelock := details_timelock counterparty_htlc_details in
  Ok (mkTerms receiver_pubkey sender_pubkey secret_hash timelock).

Definition participate_in_swap (nd : node) (glyph_id : string) (amount : Z)
           (counterparty_htlc_details : htlc_details) (destination_address : string)
  : result (CTransaction * option string) :=
  terms <- participate_terms nd counterparty_htlc_details destination_address ;;
  let htlc_script := htlc_script_of terms in
  _construct_and_broadcast_transaction nd
    (mkCTxOut (amount * 10 ^ 8) htlc_script)
    (Some (getnewaddress nd)) 1 true None.

End HtlcSwaps.

(* ------------------------------------------------------------------------- *)
(** ** A node and a character table to run the code on *)

(** [str.isalpha] and [str.isupper] on the code points below U+0100 (Basic
    Latin and Latin-1 Supplement), after the Unicode character database:
    the letters are A-Z, a-z, U+00AA, U+00B5, U+00BA, U+00C0-U+00D6,
    U+00D8-U+00F6 and U+00F8-U+00FF; the uppercase ones are A-Z,
    U+00C0-U+00D6 and U+00D8-U+00DE. *)
Definition between (lo hi c : Z) : bool := (lo <=? c) && (c <=? hi).

Definition latin1_isalpha (c : Z) : bool :=
  between 65 90 c || between 97 122 c
  || (c =? 0xAA) || (c =? 0xB5) || (c =? 0xBA)
  || between 0xC0 0xD6 c || between 0xD8 0xF6 c || between 0xF8 0xFF c.

Definition latin1_isupper (c : Z) : bool :=
  between 65 90 c || between 0xC0 0xD6 c || between 0xD8 0xDE c.

(** [int] on a string of decimal digits. *)
Fixpoint digits_value (s : string) (acc : Z) : option Z :=
  match s with
  | EmptyString => Some acc
  | String c s' =>
      let d := Z.of_N (N_of_ascii c) - 48 in
      if (0 <=? d) && (d <=? 9) then digits_value s' (10 * acc + d) else None
  end.

Definition int_of_digits (s : string) : result Z :=
  match s with
  | EmptyString => Raise ValueError
  | _ => match digits_value s 0 with Some v => Ok v | None => Raise ValueError end
  end.

(** [bytes.fromhex]: pairs of hexadecimal digits, white space between the
    pairs skipped. *)
Definition hex_digit (c : ascii) : option Z :=
  let n := Z.of_N (N_of_ascii c) in
  if between 48 57 n then Some (n - 48)
  else if between 97 102 n then Some (n - 87)
  else if between 65 70 n then Some (n - 55)
  else None.

Definition is_space (c : ascii) : bool :=
  let n := Z.of_N (N_of_ascii c) in
  (n =? 32) || between 9 13 n.

Fixpoint bytes_fromhex (s : string) : result bytes :=
  match s with
  | EmptyString => Ok []
  | String c1 s1 =>
      if is_space c1 then bytes_fromhex s1
      else
        match s1 with
        | EmptyString => Raise ValueError
        | String c2 s2 =>
            match hex_digit c1, hex_digit c2 with
            | Some high, Some low =>
                rest <- bytes_fromhex s2 ;;
                Ok (byte.of_Z (16 * high + low) :: rest)
            | _, _ => Raise ValueError
            end
        end
  end.

(** The number of bytes a transaction without signatures serialises to:
    version, inputs (outpoint, empty script and sequence), outputs (value
    and script) and lock time, the counts and script lengths in compact
    size. *)
Definition compact_size (n : Z) : Z :=
  if n <? 0xfd then 1 else if n <=? 0xffff then 3 else if n <=? 0xffffffff then 5 else 9.

Definition tx_size (tx : CTransaction) : Z :=
  4 + compact_size (len (vin tx)) + 41 * len (vin tx)
  + compact_size (len (vout tx))
  + fold_right
      (fun output size =>
         8 + compact_size (len (scriptPubKey output)) + len (scriptPubKey output) + size)
      0 (vout tx)
  + 4.

(** The testnet address the examples pay to, with its script: version 0
    and the 20 bytes of the key hash. *)
Definition test_address : string := "tb1qw508d6qejxtdg4y5r3zarvary0c5xw7kxpjzsx".

Definition test_script : bytes :=
  [Byte.x00; Byte.x14;
   Byte.x75; Byte.x1e; Byte.x76; Byte.xe8; Byte.x19; Byte.x91; Byte.x96; Byte.xd4;
   Byte.x54; Byte.x94; Byte.x1c; Byte.x45; Byte.xd1; Byte.xb3; Byte.xa3; Byte.x23;
   Byte.xf1; Byte.x43; Byte.x3b; Byte.xd6].

(** The id of the transaction the examples spend from, in hexadecimal. *)
Definition test_txid : string :=
  "0101010101010101010101010101010101010101010101010101010101010101".

(** A node to run the code on.  Its wallet holds one output of 0.001 BTC
    at [test_address], the only address it knows; [coincurve.PublicKey]
    has no [from_hex], so that call raises [AttributeError]; the examples
    hash the empty string only.  The glyph queries are answered as given,
    the way a caller that replaces them would: the glyph 840000:17 was
    etched with divisibility 2 and mints 10 units at a time, and the input
    holds 100 of its units.  The float entries compare and truncate
    exactly. *)
Definition example_node : node := {|
  listunspent := Ok [mkUtxo (repeat Byte.x01 32) 0 100000 test_address];
  getblockcount := 840100;
  getnewaddress := test_address;
  getaddressinfo_pubkey := fun _ =>
    Ok "0279be667ef9dcbbac55a06295ce870b07029bfcdb2dce28d959f2815b16f81798"%string;
  signrawtransactionwithwallet_sendrawtransaction := fun _ => Ok test_txid;
  serialize_len := tx_size;
  CCoinAddress := fun address =>
    if String.eqb address test_address then Ok test_script else Raise CCoinAddressError;
  P2TRCoinAddress_from_scriptPubKey := fun _ => Raise CCoinAddressError;
  PublicKey_from_hex := fun _ => Raise AttributeError;
  sha256 := fun _ =>
    [Byte.xe3; Byte.xb0; Byte.xc4; Byte.x42; Byte.x98; Byte.xfc; Byte.x1c; Byte.x14;
     Byte.x9a; Byte.xfb; Byte.xf4; Byte.xc8; Byte.x99; Byte.x6f; Byte.xb9; Byte.x24;
     Byte.x27; Byte.xae; Byte.x41; Byte.xe4; Byte.x64; Byte.x9b; Byte.x93; Byte.x4c;
     Byte.xa4; Byte.x95; Byte.x99; Byte.x1b; Byte.x78; Byte.x52; Byte.xb8; Byte.x55];
  fromhex := bytes_fromhex;
  int_of_str := int_of_digits;
  get_input_amount := fun _ => Ok 100000;
  get_glyph_info := fun _ =>
    Ok (mkGlyphInfo (Some 840000) (Some 0) (Some 2) (Some 1000) (Some 10)
                    None None None (Some 1000));
  get_glyph_balance := fun _ _ _ => Ok 100;
  wallet_change_positive := fun u destination_value fee =>
    Ok (0 <? utxo_amount u - destination_value - fee);
  int_of_float_product := fun amount d => Ok (Z.quot amount (10 ^ (- d)))
|}.

(* ------------------------------------------------------------------------- *)
(** ** The statements the code is compared with *)

(** The mint window as the specification words it, a field being set when
    its key is present: the start is [start_height], else [etch_height +
    start_offset], else 0; the end is [end_height], else [etch_height +
    end_offset], else unbounded; and under a cap the count stays below it. *)
Definition effective_start_spec (gi : glyph_info) : Z :=
  match start_height gi, start_offset gi with
  | Some s, _ => s
  | None, Some o => get (etch_height gi) 0 + o
  | None, None => 0
  end.

Definition effective_end_spec (gi : glyph_info) : bound :=
  match end_height gi, end_offset gi with
  | Some e, _ => Fin e
  | None, Some o => Fin (get (etch_height gi) 0 + o)
  | None, None => Inf
  end.

Definition mint_open_spec (gi : glyph_info) (h : Z) : bool :=
  (effective_start_spec gi <=? h)
  && lt_bound h (effective_end_spec gi)
  && match mint_cap gi with
     | Some cap => get (minted_count gi) 0 <? cap
     | None => true
     end.

(** A field counts when it is present and not zero. *)
Definition nonzero (field : option Z) : option Z :=
  match field with
  | Some v => if v =? 0 then None else Some v
  | None => None
  end.

(** The same window with [nonzero] fields only. *)
Definition effective_start (gi : glyph_info) : Z :=
  match nonzero (start_height gi), nonzero (start_offset gi) with
  | Some s, _ => s
  | None, Some o => get (etch_height gi) 0 + o
  | None, None => 0
  end.

Definition effective_end (gi : glyph_info) : bound :=
  match nonzero (end_height gi), nonzero (end_offset gi) with
  | Some e, _ => Fin e
  | None, Some o => Fin (get (etch_height gi) 0 + o)
  | None, None => Inf
  end.

Definition below_cap (gi : glyph_info) : Prop :=
  match nonzero (mint_cap gi) with
  | Some cap => exists minted, minted_count gi = Some minted /\ minted < cap
  | None => True
  end.

Definition before (h : Z) (e : bound) : Prop :=
  match e with
  | Fin e => h < e
  | Inf => True
  end.

(** [isalpha] and [isupper] hold of the letters A to Z. *)
Definition uppercase_latin (isalpha isupper : Z -> bool) : Prop :=
  forall c, 65 <= c <= 90 -> isalpha c = true /\ isupper c = true.

(** A tagged field of an etch payload: the tag and the varint of a
    [nonzero] field, nothing otherwise. *)
Definition tagged_field (tag : string) (field : option Z) : bytes :=
  match nonzero field with
  | Some v => b tag ++ varint v
  | None => []
  end.

(** A field that is absent, or present and not negative. *)
Definition encodable (field : option Z) : Prop :=
  match field with
  | Some v => 0 <= v
  | None => True
  end.

(** The largest integer whose symbol has at most [k] letters:
    [26 + 26^2 + ... + 26^k]. *)
Fixpoint max_symbol (k : nat) : Z :=
  match k with
  | O => 0
  | S k' => 26 * (max_symbol k' + 1)
  end.

(** An uppercase letter of the alphabet, by code point. *)
Definition letter (c : Z) : Prop := 65 <= c <= 90.

(** A spacer at index [i] of [name] that is neither first nor last nor
    next to another spacer. *)
Definition well_placed (name : pystr) (i : Z) : Prop :=
  i <> 0 /\ i <> len name - 1
  /\ getitem name (i - 1) <> spacer /\ getitem name (i + 1) <> spacer.

(** The grammar of glyph names: one to 26 characters, each a letter A-Z or
    a well placed spacer, and a letter among them. *)
Definition name_grammar (name : pystr) : Prop :=
  0 < len name <= MAX_GLYPH_NAME_LENGTH
  /\ (forall i, 0 <= i < len name ->
        letter (getitem name i)
        \/ (getitem name i = spacer /\ well_placed name i))
  /\ exists i, 0 <= i < len name /\ letter (getitem name i).

(** On the characters of [name], [isalpha] and [isupper] together pick out
    the letters A-Z and nothing else. *)
Definition plain (isalpha isupper : Z -> bool) (name : pystr) : Prop :=
  forall c, In c name -> (isalpha c && isupper c = true <-> letter c).

(** The letters among the items of an enumeration. *)
Fixpoint count_letters (items : list (Z * Z)) : Z :=
  match items with
  | [] => 0
  | (_, c) :: items' =>
      (if (65 <=? c) && (c <=? 90) then 1 else 0) + count_letters items'
  end.

(* ------------------------------------------------------------------------- *)
(** ** Reading an etch glyphstone and querying the chain *)

(** What [decode_glyphstone] returns: the entries of [glyph_info] with the
    name and the symbol. *)
Record etched : Type := mkEtched {
  etched_info : glyph_info;
  etched_name : option pystr;
  etched_symbol : option pystr
}.

(** [data[0:1].decode('utf-8')] on one byte: a byte below 0x80 is its
    character; any other byte raises [UnicodeDecodeError], which is a
    [ValueError]. *)
Definition decode_one_byte (byte : byte) : result pystr :=
  if byte.unsigned byte <? 128 then Ok [byte.unsigned byte] else Raise ValueError.

(** [glyph_info[key] = value] for the keys of the tagged fields. *)
Definition set_tagged (tag : Z) (value : Z) (gi : glyph_info) : glyph_info :=
  if tag =? 67 then
    mkGlyphInfo (etch_height gi) (minted_count gi) (divisibility gi) (Some value)
      (mint_amount gi) (start_height gi) (end_height gi) (start_offset gi) (end_offset gi)
  else if tag =? 65 then
    mkGlyphInfo (etch_height gi) (minted_count gi) (divisibility gi) (mint_cap gi)
      (Some value) (start_height gi) (end_height gi) (start_offset gi) (end_offset gi)
  else if tag =? 83 then
    mkGlyphInfo (etch_height gi) (minted_count gi) (divisibility gi) (mint_cap gi)
      (mint_amount gi) (Some value) (end_height gi) (start_offset gi) (end_offset gi)
  else if tag =? 72 then
    mkGlyphInfo (etch_height gi) (minted_count gi) (divisibility gi) (mint_cap gi)
      (mint_amount gi) (start_height gi) (Some value) (start_offset gi) (end_offset gi)
  else if tag =? 79 then
    mkGlyphInfo (etch_height gi) (minted_count gi) (divisibility gi) (mint_cap gi)
      (mint_amount gi) (start_height gi) (end_height gi) (Some value) (end_offset gi)
  else
    mkGlyphInfo (etch_height gi) (minted_count gi) (divisibility gi) (mint_cap gi)
      (mint_amount gi) (start_height gi) (end_height gi) (start_offset gi) (Some value).

(** The [while data:] loop of [decode_glyphstone] over the tagged fields C,
    A, S, H, O and F; an unknown tag ends it.  A turn of the loop takes
    its new [data] from the unpacked pair; [fuel] bounds the turns. *)
Fixpoint decode_glyphstone_fields (fuel : nat) (data : bytes) (gi : glyph_info)
  : result glyph_info :=
  match fuel with
  | O => Ok gi
  | S fuel' =>
      match data with
      | [] => Ok gi
      | tag :: rest =>
          let t := byte.unsigned tag in
          if (t =? 67) || (t =? 65) || (t =? 83) || (t =? 72) || (t =? 79) || (t =? 70)
          then
            value <- decode_varint rest ;;
            '(field, data) <- unpack_pair value ;;
            decode_glyphstone_fields fuel' data (set_tagged t field gi)
          else Ok gi
      end
  end.

Definition decode_glyphstone (glyphstone_data : bytes) (etch_height : Z) : result etched :=
  let glyph_info :=
    mkGlyphInfo (Some etch_height) (Some 0) None None None None None None None in
  match glyphstone_data with
  | [] => Raise IndexError
  | tag :: data =>
      if negb (byte.unsigned tag =? 69) then Raise ValueError
      else
        value <- decode_varint data ;;
        '(name_int, data) <- unpack_pair value ;;
        name <- int_to_symbol name_int ;;
        value <- decode_varint data ;;
        '(divisibility, data) <- unpack_pair value ;;
        let glyph_info :=
          mkGlyphInfo (Some etch_height) (Some 0) (Some divisibility)
            None None None None None None in
        '(symbol, data) <-
          (match data with
           | [] => Ok (None, data)
           | c :: rest => s <- decode_one_byte c ;; Ok (Some s, rest)
           end) ;;
        glyph_info <- decode_glyphstone_fields (S (List.length data)) data glyph_info ;;
        Ok (mkEtched glyph_info (Some name) symbol)
  end.

(** An answer of Bitcoin Core, or the [JSONRPCError] the proxy raises. *)
Inductive rpc_reply (A : Type) : Type :=
| Reply (a : A)
| JSONRPCError.
Arguments Reply {A} a.
Arguments JSONRPCError {A}.

(** The [scriptPubKey] of an output as the node describes it: its [type]
    and its [asm] split at white space. *)
Record script_pub_key : Type := mkScriptPubKey {
  spk_type : string;
  spk_asm_parts : list string
}.

(** The calls of the chain queries: [getrawtransaction(txid, True)] and
    [getblock(hash, 2)] are taken to the [scriptPubKey]s of the outputs
    they list. *)
Record rpc : Type := mkRpc {
  getrawtransaction : string -> rpc_reply (list script_pub_key);
  gettxout : string -> Z -> rpc_reply unit;
  getblockhash : Z -> rpc_reply string;
  getblock : string -> rpc_reply (list (list script_pub_key))
}.

(** [l[i]] on a list: a negative index counts from the end. *)
Definition list_getitem {A : Type} (l : list A) (i : Z) : result A :=
  let j := if i <? 0 then i + len l else i in
  if (j <? 0) || (len l <=? j) then Raise IndexError
  else
    match nth_error l (Z.to_nat j) with
    | Some x => Ok x
    | None => Raise IndexError
    end.

Module Chain.

Definition get_glyph_balance (r : rpc) (nd : node) (txid : string) (vout : Z)
           (glyph_id : string) : result Z :=
  match getrawtransaction r txid with
  | JSONRPCError => Raise ValueError
  | Reply outputs =>
      if len outputs <=? vout then Raise ValueError
      else
        scriptPubKey <- list_getitem outputs vout ;;
        match gettxout r txid vout with
        | JSONRPCError => Raise ValueError
        | Reply _ =>
            if negb (String.eqb (spk_type scriptPubKey) "nulldata")
            then Raise ValueError
            else
              let asm_parts := spk_asm_parts scriptPubKey in
              if (len asm_parts <? 3)
                 || negb (String.eqb (nth 1 asm_parts EmptyString) "OP_13")
              then Raise ValueError
              else
                glyphstone_data <- fromhex nd (nth 2 asm_parts EmptyString) ;;
                decode_glyph_balance glyphstone_data glyph_id
        end
  end.

(** The [for output in transaction['vout']] loop of [get_glyph_info]. *)
Fixpoint find_glyphstone (nd : node) (outputs : list script_pub_key)
  : result (option bytes) :=
  match outputs with
  | [] => Ok None
  | scriptPubKey :: rest =>
      if String.eqb (spk_type scriptPubKey) "nulldata"
         && (2 <? len (spk_asm_parts scriptPubKey))
      then
        let asm_parts := spk_asm_parts scriptPubKey in
        if String.eqb (nth 1 asm_parts EmptyString) "OP_13"
        then
          glyphstone_data <- fromhex nd (nth 2 asm_parts EmptyString) ;;
          Ok (Some glyphstone_data)
        else find_glyphstone nd rest
      else find_glyphstone nd rest
  end.

Definition get_glyph_info (r : rpc) (nd : node) (glyph_id : string)
  : rpc_reply (result etched) :=
  match parse_glyph_id nd glyph_id with
  | Raise e => Reply (Raise e)
  | Ok (block_height, tx_index) =>
      match getblockhash r block_height with
      | JSONRPCError => JSONRPCError
      | Reply block_hash =>
          match getblock r block_hash with
          | JSONRPCError => JSONRPCError
          | Reply txs =>
              if len txs <=? tx_index then Reply (Raise ValueError)
              else
                Reply
                  (transaction <- list_getitem txs tx_index ;;
                   found <- find_glyphstone nd transaction ;;
                   match found with
                   | None => Raise ValueError
                   | Some [] => Raise ValueError
                   | Some glyphstone_data =>
                       decode_glyphstone glyphstone_data block_height
                   end)
          end
      end
  end.

End Chain.

(** A node that lists one transaction, whose only output carries a
    transfer glyphstone, and one block holding one etch. *)
Definition example_rpc : rpc := {|
  getrawtransaction := fun _ =>
    Reply [mkScriptPubKey "nulldata" ["OP_RETURN"; "OP_13"; "54c0a233112a01"]%string];
  gettxout := fun _ _ => Reply tt;
  getblockhash := fun _ => Reply "00ab"%string;
  getblock := fun _ =>
    Reply [[mkScriptPubKey "nulldata" ["OP_RETURN"; "OP_13"; "451b02"]%string]]
|}.

(** [example_node] with the glyph queries answered as the code computes
    them from [example_rpc]. *)
Definition chain_node : node := {|
  listunspent := listunspent example_node;
  getblockcount := getblockcount example_node;
  getnewaddress := getnewaddress example_node;
  getaddressinfo_pubkey := getaddressinfo_pubkey example_node;
  signrawtransactionwithwallet_sendrawtransaction :=
    signrawtransactionwithwallet_sendrawtransaction example_node;
  serialize_len := serialize_len example_node;
  CCoinAddress := CCoinAddress example_node;
  P2TRCoinAddress_from_scriptPubKey := P2TRCoinAddress_from_scriptPubKey example_node;
  PublicKey_from_hex := PublicKey_from_hex example_node;
  sha256 := sha256 example_node;
  fromhex := fromhex example_node;
  int_of_str := int_of_str example_node;
  get_input_amount := get_input_amount example_node;
  get_glyph_info := fun glyph_id =>
    match Chain.get_glyph_info example_rpc example_node glyph_id with
    | Reply (Ok glyph) => Ok (etched_info glyph)
    | Reply (Raise e) => Raise e
    | JSONRPCError => Raise ValueError
    end;
  get_glyph_balance := Chain.get_glyph_balance example_rpc example_node;
  wallet_change_positive := wallet_change_positive example_node;
  int_of_float_product := int_of_float_product example_node
|}.

(* ========================================================================= *)
(** * Properties *)

(* ------------------------------------------------------------------------- *)
(** ** Bytes and bit arithmetic *)

Lemma unsigned_of_Z_small (x : Z) :
  0 <= x < 256 -> byte.unsigned (byte.of_Z x) = x.
Proof.
  intros Hx. rewrite byte.unsigned_of_Z. unfold byte.wrap.
  apply Z.mod_small. change (2 ^ 8) with 256. lia.
Qed.

Lemma land_127_mod (i : Z) : Z.land i 0x7F = i mod 128.
Proof. change 0x7F with (Z.ones 7). rewrite Z.land_ones by lia. reflexivity. Qed.

Lemma low7_range (i : Z) : 0 <= Z.land i 0x7F < 128.
Proof. rewrite land_127_mod. apply Z.mod_pos_bound. lia. Qed.

(** The seven low bits and the rest make up the number. *)
Lemma split_low7 (i : Z) :
  Z.lor (Z.land i 0x7F) (Z.shiftl (Z.shiftr i 7) 7) = i.
Proof.
  change 0x7F with (Z.ones 7).
  rewrite <- (Z.ldiff_ones_r i 7) by lia.
  rewrite Z.lor_comm. apply Z.lor_ldiff_and.
Qed.

(** A group of seven bits with the continuation bit set is a byte that has
    the group as its low bits and the bit 0x80 on. *)
Lemma continuation_byte (i : Z) :
  let x := Z.lor (Z.land i 0x7F) 0x80 in
  0 <= x < 256 /\ Z.land x 0x7F = Z.land i 0x7F /\ Z.land x 0x80 = 0x80.
Proof.
  intros x. subst x.
  pose proof (low7_range i) as Hr.
  remember (Z.land i 0x7F) as g eqn:Hg.
  assert (Hg' : exists n : nat, g = Z.of_nat n /\ (n < 128)%nat).
  { exists (Z.to_nat g). split; lia. }
  destruct Hg' as [n [-> Hn]]. clear Hg Hr.
  do 128 (destruct n as [|n]; [vm_compute; repeat split; congruence|]).
  lia.
Qed.

(** A number below 128 has the bit 0x80 off. *)
Lemma terminal_byte (i : Z) : 0 <= i < 128 -> Z.land i 0x80 = 0.
Proof.
  intros Hi. apply Z.bits_inj'. intros n Hn. rewrite Z.land_spec, Z.bits_0.
  destruct (Z.eq_dec n 7) as [->|Hne].
  - rewrite (Z.bits_above_log2 i 7); [reflexivity | lia |].
    destruct (Z.eq_dec i 0) as [->|]; [vm_compute; reflexivity|].
    apply Z.log2_lt_pow2; simpl; lia.
  - replace (Z.testbit 128 n) with false; [apply andb_false_r|].
    symmetry. change 128 with (2 ^ 7). apply Z.pow2_bits_false. lia.
Qed.

Lemma shiftr7_lt (i k : Z) : 0 <= k -> 0 <= i < 2 ^ (7 + k) -> 0 <= Z.shiftr i 7 < 2 ^ k.
Proof.
  intros Hk [H0 H1]. rewrite Z.shiftr_div_pow2 by lia.
  rewrite Z.pow_add_r in H1 by lia.
  split; [apply Z.div_pos; lia|].
  apply Z.div_lt_upper_bound; lia.
Qed.

(* ------------------------------------------------------------------------- *)
(** ** Varint codec *)

Lemma encode_varint_loop_app (fuel : nat) :
  forall i encoded,
    encode_varint_loop fuel i encoded = encoded ++ encode_varint_loop fuel i [].
Proof.
  induction fuel as [|fuel IH]; intros i encoded; cbn [encode_varint_loop].
  - reflexivity.
  - destruct (127 <? i); [|reflexivity].
    rewrite (IH _ (encoded ++ _)), (IH _ ([] ++ _)).
    rewrite <- app_assoc. reflexivity.
Qed.

(** Two amounts of fuel that both cover [i] give the same bytes. *)
Lemma encode_varint_loop_fuel (f1 : nat) :
  forall f2 i,
    0 <= i < 2 ^ (7 + Z.of_nat f1) ->
    0 <= i < 2 ^ (7 + Z.of_nat f2) ->
    encode_varint_loop f1 i [] = encode_varint_loop f2 i [].
Proof.
  induction f1 as [|f1 IH]; intros f2 i H1 H2.
  - change (2 ^ (7 + Z.of_nat 0)) with 128 in H1.
    destruct f2 as [|f2]; [reflexivity|]. cbn [encode_varint_loop].
    destruct (127 <? i) eqn:E; [apply Z.ltb_lt in E; lia | reflexivity].
  - destruct f2 as [|f2]; cbn [encode_varint_loop].
    + change (2 ^ (7 + Z.of_nat 0)) with 128 in H2.
      destruct (127 <? i) eqn:E; [apply Z.ltb_lt in E; lia | reflexivity].
    + destruct (127 <? i) eqn:E; [|reflexivity].
      rewrite (encode_varint_loop_app f1), (encode_varint_loop_app f2).
      f_equal. apply IH.
      * assert (H : 0 <= Z.shiftr i 7 < 2 ^ Z.of_nat (S f1))
          by (apply shiftr7_lt; lia).
        split; [lia|]. eapply Z.lt_le_trans; [apply H|].
        apply Z.pow_le_mono_r; lia.
      * assert (H : 0 <= Z.shiftr i 7 < 2 ^ Z.of_nat (S f2))
          by (apply shiftr7_lt; lia).
        split; [lia|]. eapply Z.lt_le_trans; [apply H|].
        apply Z.pow_le_mono_r; lia.
Qed.

Lemma log2_fuel (i : Z) : 0 <= i -> 0 <= i < 2 ^ (7 + Z.of_nat (Z.to_nat (Z.log2 i))).
Proof.
  intros Hi. split; [exact Hi|].
  pose proof (Z.log2_nonneg i) as Hl.
  rewrite Z2Nat.id by exact Hl.
  destruct (Z.eq_dec i 0) as [->|Hn].
  - vm_compute. reflexivity.
  - pose proof (Z.log2_spec i ltac:(lia)) as [_ Hs].
    eapply Z.lt_le_trans; [exact Hs|].
    apply Z.pow_le_mono_r; lia.
Qed.

(** [varint] obeys the equation of the loop it stands for: one byte for
    [i <= 127], otherwise the low seven bits with the continuation bit and
    then the bytes of [i >> 7]. *)
Lemma varint_unfold (i : Z) :
  0 <= i ->
  varint i =
    if 127 <? i
    then bytes1 (Z.lor (Z.land i 0x7F) 0x80) ++ varint (Z.shiftr i 7)
    else bytes1 i.
Proof.
  intros Hi. unfold varint.
  destruct (127 <? i) eqn:E.
  - apply Z.ltb_lt in E.
    assert (Hf : exists f, Z.to_nat (Z.log2 i) = S f).
    { assert (7 <= Z.log2 i) by (apply Z.log2_le_pow2; simpl; lia).
      exists (Z.to_nat (Z.log2 i - 1)). lia. }
    destruct Hf as [f Hf]. rewrite Hf. cbn [encode_varint_loop].
    assert (E' : (127 <? i) = true) by (apply Z.ltb_lt; exact E). rewrite E'.
    rewrite encode_varint_loop_app. f_equal.
    assert (Hs : 0 <= Z.shiftr i 7) by (apply Z.shiftr_nonneg; lia).
    apply encode_varint_loop_fuel.
    + assert (H : 0 <= Z.shiftr i 7 < 2 ^ Z.of_nat (S f)).
      { apply shiftr7_lt; [lia|]. rewrite <- Hf. apply log2_fuel. exact Hi. }
      split; [lia|]. eapply Z.lt_le_trans; [apply H|].
      apply Z.pow_le_mono_r; lia.
    + apply log2_fuel. exact Hs.
  - apply Z.ltb_ge in E.
    destruct (Z.to_nat (Z.log2 i)) as [|f]; cbn [encode_varint_loop].
    + reflexivity.
    + assert (E' : (127 <? i) = false) by (apply Z.ltb_ge; exact E). rewrite E'.
      reflexivity.
Qed.

(** Reading the bytes of [i]: whatever was accumulated and whatever follows,
    the loop adds [i << shift] and stops in front of what follows. *)
Lemma decode_encode_loop (fuel : nat) :
  forall i rest decoded shift,
    0 <= i < 2 ^ (7 + Z.of_nat fuel) ->
    0 <= shift ->
    decode_varint_loop (encode_varint_loop fuel i [] ++ rest) decoded shift
    = (Z.lor decoded (Z.shiftl i shift), rest).
Proof.
  induction fuel as [|fuel IH]; intros i rest decoded shift Hi Hs.
  - change (2 ^ (7 + Z.of_nat 0)) with 128 in Hi.
    cbn [encode_varint_loop app bytes1 decode_varint_loop].
    rewrite unsigned_of_Z_small by lia.
    rewrite !land_127_mod, Z.mod_small by lia.
    rewrite terminal_byte by lia. reflexivity.
  - cbn [encode_varint_loop].
    destruct (127 <? i) eqn:E.
    + rewrite encode_varint_loop_app.
      cbn [app bytes1 decode_varint_loop].
      destruct (continuation_byte i) as [Hr [Hl Hh]].
      rewrite unsigned_of_Z_small by exact Hr.
      rewrite Hl, Hh. cbn [Z.eqb].
      rewrite IH.
      * f_equal. rewrite <- Z.lor_assoc. f_equal.
        replace (shift + 7) with (7 + shift) by lia.
        rewrite <- Z.shiftl_shiftl by lia.
        rewrite <- Z.shiftl_lor. rewrite split_low7. reflexivity.
      * assert (H : 0 <= Z.shiftr i 7 < 2 ^ Z.of_nat (S fuel))
          by (apply shiftr7_lt; lia).
        split; [lia|]. eapply Z.lt_le_trans; [apply H|].
        apply Z.pow_le_mono_r; lia.
      * lia.
    + apply Z.ltb_ge in E.
      cbn [app bytes1 decode_varint_loop].
      rewrite unsigned_of_Z_small by lia.
      rewrite !land_127_mod, Z.mod_small by lia.
      rewrite terminal_byte by lia. reflexivity.
Qed.

(** Framing: after the bytes of [i] the loop hands back [i] and stops in
    front of whatever follows. *)
Lemma decode_varint_loop_varint (i : Z) (rest : bytes) :
  0 <= i -> decode_varint_loop (varint i ++ rest) 0 0 = (i, rest).
Proof.
  intros Hi. unfold varint.
  rewrite decode_encode_loop by (try apply log2_fuel; lia).
  rewrite Z.shiftl_0_r. reflexivity.
Qed.

Lemma encode_varint_ok (i : Z) : 0 <= i -> encode_varint i = Ok (varint i).
Proof.
  intros Hi. unfold encode_varint.
  destruct (i <? 0) eqn:E; [apply Z.ltb_lt in E; lia | reflexivity].
Qed.

Lemma encode_varint_inv (i : Z) (e : bytes) :
  encode_varint i = Ok e -> 0 <= i /\ e = varint i.
Proof.
  unfold encode_varint. destruct (i <? 0) eqn:E; [discriminate|].
  apply Z.ltb_ge in E. intros H. inversion H. split; [exact E | reflexivity].
Qed.




(** Seven low bits never meet the bits of a number shifted by seven. *)
Lemma low7_plus_shifted (g v : Z) :
  0 <= g < 128 -> g + 128 * v = Z.lor g (Z.shiftl v 7).
Proof.
  intros Hg.
  assert (Hd : Z.land g (Z.shiftl v 7) = 0).
  { apply Z.bits_inj'. intros n Hn. rewrite Z.land_spec, Z.bits_0.
    destruct (Z_lt_le_dec n 7) as [Hlt|Hge].
    - rewrite Z.shiftl_spec_low by exact Hlt. apply andb_false_r.
    - rewrite (Z.bits_above_log2 g n); [reflexivity | lia |].
      destruct (Z.eq_dec g 0) as [->|]; [simpl; lia|].
      assert (Hl : Z.log2 g < 7) by (apply Z.log2_lt_pow2; simpl; lia).
      lia. }
  rewrite <- Z.lxor_lor by exact Hd.
  rewrite <- Z.add_nocarry_lxor by exact Hd.
  rewrite Z.shiftl_mul_pow2 by lia. change (2 ^ 7) with 128. lia.
Qed.

(** The loop of [decode_varint] on a run of bytes that all carry the
    continuation bit: every group is taken and nothing is left. *)
Lemma decode_varint_loop_run (run : bytes) :
  forall decoded shift,
    0 <= shift ->
    forallb continues run = true ->
    decode_varint_loop run decoded shift
    = (Z.lor decoded (Z.shiftl (base128 run) shift), []).
Proof.
  induction run as [|byte run IH]; intros decoded shift Hs Hrun.
  - cbn [decode_varint_loop base128]. rewrite Z.shiftl_0_l, Z.lor_0_r. reflexivity.
  - cbn [forallb] in Hrun. apply andb_true_iff in Hrun as [Hb Hrun].
    cbn [decode_varint_loop base128].
    unfold continues in Hb. apply negb_true_iff in Hb. rewrite Hb.
    rewrite IH by (try lia; exact Hrun).
    f_equal. rewrite <- Z.lor_assoc. f_equal.
    rewrite low7_plus_shifted by apply low7_range.
    rewrite Z.shiftl_lor, Z.shiftl_shiftl by lia.
    replace (7 + shift) with (shift + 7) by lia. reflexivity.
Qed.

(** The same run closed by a byte without the continuation bit: the loop
    stops there and leaves what follows. *)
Lemma decode_varint_loop_closed (run : bytes) :
  forall last rest decoded shift,
    0 <= shift ->
    forallb continues run = true ->
    continues last = false ->
    decode_varint_loop (run ++ last :: rest) decoded shift
    = (Z.lor decoded (Z.shiftl (base128 (run ++ [last])) shift), rest).
Proof.
  induction run as [|byte run IH]; intros last rest decoded shift Hs Hrun Hlast.
  - cbn [app decode_varint_loop base128].
    unfold continues in Hlast. apply negb_false_iff in Hlast. rewrite Hlast.
    rewrite Z.mul_0_r, Z.add_0_r. reflexivity.
  - cbn [forallb] in Hrun. apply andb_true_iff in Hrun as [Hb Hrun].
    cbn [app decode_varint_loop base128].
    unfold continues in Hb. apply negb_true_iff in Hb. rewrite Hb.
    rewrite IH by (try lia; assumption).
    f_equal. rewrite <- Z.lor_assoc. f_equal.
    rewrite low7_plus_shifted by apply low7_range.
    rewrite Z.shiftl_lor, Z.shiftl_shiftl by lia.
    replace (7 + shift) with (shift + 7) by lia. reflexivity.
Qed.

(** C2, as stated, fails: on the single byte 0x80 the stream ends with the
    continuation bit set and the specified decoder reports [Truncated], yet
    [decode_varint] returns 0; on ten bytes 0x80 followed by 0x01 the
    specified decoder reports [Overflow], yet [decode_varint] returns
    [2^70]. *)
Lemma decode_varint_returns_where_failure_is_specified :
  decode_spec [Byte.x80] = inl Truncated
  /\ decode_varint [Byte.x80] = Ok 0
  /\ decode_spec (repeat Byte.x80 10 ++ [Byte.x01]) = inl Overflow
  /\ decode_varint (repeat Byte.x80 10 ++ [Byte.x01]) = Ok (2 ^ 70).
Proof. repeat split; vm_compute; reflexivity. Qed.

(** C2, amended.  [decode_varint] returns the decoded integer on every
    stream: the base-128 value of the bytes up to and including the first
    one without the continuation bit, whatever follows it; and, when every
    byte of the stream carries the continuation bit, the base-128 value of
    the whole stream, however long it is. *)
Theorem decode_varint_value :
  (forall run last rest,
     forallb continues run = true ->
     continues last = false ->
     decode_varint (run ++ last :: rest) = Ok (base128 (run ++ [last])))
  /\ (forall run,
        forallb continues run = true ->
        decode_varint run = Ok (base128 run)).
Proof.
  split.
  - intros run last rest Hrun Hlast. unfold decode_varint.
    rewrite decode_varint_loop_closed by (try lia; assumption).
    cbn [fst]. rewrite Z.shiftl_0_r, Z.lor_0_l. reflexivity.
  - intros run Hrun. unfold decode_varint.
    rewrite decode_varint_loop_run by (try lia; assumption).
    cbn [fst]. rewrite Z.shiftl_0_r, Z.lor_0_l. reflexivity.
Qed.

Lemma decode_varint_value_witness :
  (forallb continues [Byte.xac] = true
   /\ continues Byte.x02 = false
   /\ decode_varint ([Byte.xac] ++ Byte.x02 :: [Byte.x54])
      = Ok (base128 ([Byte.xac] ++ [Byte.x02])))
  /\ (forallb continues [Byte.x80; Byte.xff] = true
      /\ decode_varint [Byte.x80; Byte.xff] = Ok (base128 [Byte.x80; Byte.xff])).
Proof.
  split.
  - split; [reflexivity|]. split; [reflexivity|].
    apply (proj1 decode_varint_value [Byte.xac] Byte.x02 [Byte.x54]); reflexivity.
  - split; [reflexivity|].
    apply (proj2 decode_varint_value [Byte.x80; Byte.xff]); reflexivity.
Defined.

(** [decode_glyph_balance] never returns a balance: past the tag it
    unpacks the integer [decode_varint] returned. *)
Lemma decode_glyph_balance_raises (glyphstone_data : bytes) (glyph_id : string) :
  exists e, decode_glyph_balance glyphstone_data glyph_id = Raise e.
Proof.
  unfold decode_glyph_balance. destruct glyphstone_data as [|tag data].
  - eexists. reflexivity.
  - destruct (negb (byte.unsigned tag =? 84)); eexists; reflexivity.
Qed.

(* ------------------------------------------------------------------------- *)
(** ** Results *)

Lemma bind_ok {A B : Type} (r : result A) (k : A -> result B) (y : B) :
  bind r k = Ok y -> exists a, r = Ok a /\ k a = Ok y.
Proof. destruct r as [a|e]; cbn [bind]; [eauto | discriminate]. Qed.

(** Splits a successful [bind] in a hypothesis into its two steps. *)
Tactic Notation "bind_inv" hyp(H) "as" ident(a) ident(Ha) :=
  apply bind_ok in H; destruct H as [a [Ha H]].

(* ------------------------------------------------------------------------- *)
(** ** The transaction builder *)

Lemma glyphstone_output_not_cenotaph (glyphstone_data : bytes) :
  is_cenotaph (create_glyphstone_output glyphstone_data) = false.
Proof.
  unfold is_cenotaph, create_glyphstone_output, CScript, script_at, len.
  cbn [scriptPubKey flat_map app nth List.length].
  replace (Z.of_nat (S (S (List.length (pushdata glyphstone_data ++ []))))
           <? 2) with false by (symmetry; apply Z.ltb_ge; lia).
  reflexivity.
Qed.

(** A call that does not return raises. *)
Lemma not_ok_raises {A : Type} (r : result A) :
  (forall a, r <> Ok a) -> exists e, r = Raise e.
Proof.
  intros H. destruct r as [a|e]; [destruct (H a eq_refl) | exists e; reflexivity].
Qed.

Lemma bind_raises {A B : Type} (r : result A) (k : A -> result B) :
  (forall a, exists e, k a = Raise e) -> exists e, bind r k = Raise e.
Proof.
  intros H. destruct r as [a|e]; cbn [bind]; [apply H | exists e; reflexivity].
Qed.

Lemma bind_raises_first {A B : Type} (r : result A) (k : A -> result B) :
  (exists e, r = Raise e) -> exists e, bind r k = Raise e.
Proof. intros [e ->]. exists e. reflexivity. Qed.

(** The change block never hands back a transaction with a change output:
    where it returns, the transaction is the one it was given and the
    change was not positive. *)
Lemma add_change_inv (nd : node) (tx tx' : CTransaction) (input : input_value)
      (destination_value fee : Z) (change_address : option string) :
  add_change nd tx input destination_value fee change_address = Ok tx' ->
  tx' = tx
  /\ (nonempty change_address = true ->
      change_positive nd input destination_value fee = Ok false).
Proof.
  unfold add_change, nonempty. intros H.
  destruct change_address as [a|]; [|inversion H; split; [reflexivity | discriminate]].
  destruct (String.eqb a ""); [inversion H; split; [reflexivity | discriminate]|].
  bind_inv H as positive Hp. destruct positive.
  - bind_inv H as script Hs. destruct input; discriminate.
  - inversion H. split; [reflexivity | intros _; exact Hp].
Qed.

(** What a transaction that [construct_transaction] returns is made of: the
    glyphstone output, which is no cenotaph, the destination output when
    there is one, and nothing else; one input, the one given or the first
    wallet output of at least 10000 satoshi; and no positive change where a
    change address was given. *)
Lemma construct_transaction_ok (nd : node) (glyphstone_output : CTxOut)
      (destination_output : option CTxOut) (change_address : option string)
      (fee_per_byte : Z) (input_txin : option CTxIn) (tx : CTransaction) :
  PythonGlyphs.construct_transaction nd glyphstone_output destination_output
    change_address fee_per_byte input_txin = Ok tx ->
  let destination_value :=
    match destination_output with Some d => nValue d | None => 0 end in
  let fee := serialize_len nd tx * fee_per_byte in
  is_cenotaph glyphstone_output = false
  /\ packable tx = true
  /\ vout tx = glyphstone_output
                 :: match destination_output with Some d => [d] | None => [] end
  /\ exists txin,
      vin tx = [txin]
      /\ match input_txin with
         | Some given =>
             txin = given
             /\ exists v,
                 get_input_amount nd given = Ok v
                 /\ (nonempty change_address = true -> v - destination_value - fee <= 0)
         | None =>
             exists u,
               select_utxo nd 10000 = Ok u
               /\ COutPoint (utxo_txid u) (utxo_vout u) = Ok txin
               /\ (nonempty change_address = true ->
                   wallet_change_positive nd u destination_value fee = Ok false)
         end.
Proof.
  unfold PythonGlyphs.construct_transaction. intros H.
  bind_inv H as input Hin. destruct input as [txin input]. cbv beta iota in H.
  bind_inv H as tx_size Hsize. bind_inv H as tx1 Hchange.
  apply add_change_inv in Hchange as [-> Hpos].
  unfold serialize_size in Hsize.
  destruct (packable _) eqn:Hpack; [|discriminate].
  destruct (is_cenotaph glyphstone_output); [discriminate|].
  injection H as <-. injection Hsize as <-. cbv zeta. cbn [vin vout].
  split; [reflexivity|]. split; [exact Hpack|].
  split; [destruct destination_output; reflexivity|].
  exists txin. split; [reflexivity|].
  destruct input_txin as [given|].
  - bind_inv Hin as v Hv. injection Hin as <- <-.
    split; [reflexivity|]. exists v. split; [exact Hv|].
    intros Hca. specialize (Hpos Hca). cbn [change_positive] in Hpos.
    injection Hpos as Hlt. apply Z.ltb_ge in Hlt. exact Hlt.
  - bind_inv Hin as u Hu. bind_inv Hin as txin' Hpoint. injection Hin as <- <-.
    exists u. split; [exact Hu|]. split; [exact Hpoint|].
    intros Hca. exact (Hpos Hca).
Qed.

Lemma construct_and_broadcast_inv (nd : node) (glyphstone_output : CTxOut)
      (destination_output : option CTxOut) (change_address : option string)
      (fee_per_byte : Z) (live : bool) (input_txin : option CTxIn)
      (tx : CTransaction) (r : option string) :
  PythonGlyphs._construct_and_broadcast_transaction nd glyphstone_output
    destination_output change_address fee_per_byte live input_txin = Ok (tx, r) ->
  PythonGlyphs.construct_transaction nd glyphstone_output destination_output
    change_address fee_per_byte input_txin = Ok tx.
Proof.
  unfold PythonGlyphs._construct_and_broadcast_transaction. intros H.
  bind_inv H as tx0 Htx. rewrite Htx. destruct live.
  - destruct (signrawtransactionwithwallet_sendrawtransaction nd tx0);
      [inversion H; reflexivity | discriminate].
  - inversion H. reflexivity.
Qed.

(** The builder of [pythonGlyphs.py] returns no transaction for a cenotaph. *)
Lemma cenotaph_raises (nd : node) (glyphstone_output : CTxOut)
      (destination_output : option CTxOut) (change_address : option string)
      (fee_per_byte : Z) (live : bool) (input_txin : option CTxIn) :
  is_cenotaph glyphstone_output = true ->
  exists e,
    PythonGlyphs._construct_and_broadcast_transaction nd glyphstone_output
      destination_output change_address fee_per_byte live input_txin = Raise e.
Proof.
  intros Hc. apply not_ok_raises. intros [tx r] H.
  apply construct_and_broadcast_inv in H.
  apply construct_transaction_ok in H. destruct H as [Hn _]. congruence.
Qed.

(** The builder of [htlcSwaps.py] returns no transaction at all: past the
    change block it reads [OP_RETURN], in [is_cenotaph] or for the burn
    output. *)
Lemma swap_builder_raises (nd : node) (glyphstone_output : CTxOut)
      (change_address : option string) (fee_per_byte : Z) (live : bool)
      (input_txin : option CTxIn) :
  exists e,
    HtlcSwaps._construct_and_broadcast_transaction nd glyphstone_output
      change_address fee_per_byte live input_txin = Raise e.
Proof.
  unfold HtlcSwaps._construct_and_broadcast_transaction,
    HtlcSwaps.construct_transaction.
  apply bind_raises_first.
  apply bind_raises. intros [txin input]. cbv beta iota.
  apply bind_raises. intros tx_size.
  apply bind_raises. intros tx.
  unfold HtlcSwaps.is_cenotaph, HtlcSwaps.burn_output.
  destruct (len (scriptPubKey glyphstone_output) <? 2); cbn [bind];
    eexists; reflexivity.
Qed.

(** C1.  No call of [_construct_and_broadcast_transaction] on a cenotaph
    ends with the burn transaction.  In [pythonGlyphs.py] the call raises
    whenever [is_cenotaph] holds of the glyphstone output: the assignment
    [tx.vout = [burn_output]] is refused by the immutable transaction.  In
    [htlcSwaps.py] every call raises, [OP_RETURN] being unbound there.  For
    the wallet of [example_node] and the cenotaph [OP_RETURN OP_0], with a
    destination output declared, the two builders end with
    [AttributeError] and [NameError]. *)
Theorem cenotaph_builder_raises :
  (forall nd glyphstone_output destination_output change_address fee_per_byte
          live input_txin,
      is_cenotaph glyphstone_output = true ->
      exists e,
        PythonGlyphs._construct_and_broadcast_transaction nd glyphstone_output
          destination_output change_address fee_per_byte live input_txin = Raise e)
  /\ (forall nd glyphstone_output change_address fee_per_byte live input_txin,
         exists e,
           HtlcSwaps._construct_and_broadcast_transaction nd glyphstone_output
             change_address fee_per_byte live input_txin = Raise e)
  /\ is_cenotaph (mkCTxOut 0 [OP_RETURN; OP_0]) = true
  /\ PythonGlyphs._construct_and_broadcast_transaction example_node
       (mkCTxOut 0 [OP_RETURN; OP_0]) (Some (mkCTxOut 500 test_script))
       None 1 false None = Raise AttributeError
  /\ HtlcSwaps._construct_and_broadcast_transaction example_node
       (mkCTxOut 0 [OP_RETURN; OP_0]) None 1 false None = Raise NameError.
Proof.
  split; [intros; apply cenotaph_raises; assumption|].
  split; [intros; apply swap_builder_raises|].
  split; [reflexivity|].
  split; vm_compute; reflexivity.
Qed.

(* ------------------------------------------------------------------------- *)
(** ** Transfers *)

(** The payload of a transfer: the tag, then the block height, the
    transaction index, the amount and the constant 1, each as a varint. *)
Lemma transfer_glyphstone_data_fields (block_height tx_index amount : Z)
      (payload : bytes) :
  PythonGlyphs.transfer_glyphstone_data block_height tx_index amount = Ok payload ->
  payload = b "T" ++ varint block_height ++ varint tx_index ++ varint amount
              ++ [Byte.x01]
  /\ read_varints 4 (tl payload) = [block_height; tx_index; amount; 1].
Proof.
  unfold PythonGlyphs.transfer_glyphstone_data. intros H.
  bind_inv H as e1 H1. bind_inv H as e2 H2. bind_inv H as e3 H3.
  bind_inv H as e4 H4.
  apply encode_varint_inv in H1 as [Hh ->].
  apply encode_varint_inv in H2 as [Hi ->].
  apply encode_varint_inv in H3 as [Ha ->].
  apply encode_varint_inv in H4 as [_ ->].
  inversion H as [Hp]. change (varint 1) with [Byte.x01].
  split; [reflexivity|].
  change (b "T") with [Byte.x54]. cbn [app tl read_varints].
  rewrite decode_varint_loop_varint by exact Hh.
  rewrite decode_varint_loop_varint by exact Hi.
  rewrite decode_varint_loop_varint by exact Ha.
  reflexivity.
Qed.

(** C10.  Whatever its arguments, the payload [transfer_glyph] builds
    carries 1 as its fourth varint field: this holds of every payload
    [transfer_glyphstone_data] returns, and every transaction
    [transfer_glyph] builds starts with the glyphstone output of such a
    payload, made from the parsed glyph id and the amount. *)
Theorem transfer_output_index_is_1 :
  (forall block_height tx_index amount payload,
      PythonGlyphs.transfer_glyphstone_data block_height tx_index amount = Ok payload ->
      nth 3 (read_varints 4 (tl payload)) 0 = 1)
  /\ (forall nd glyph_id input_txid input_vout amount destination_address
             change_address fee_per_byte live nostr_pubkey tx r,
         PythonGlyphs.transfer_glyph nd glyph_id input_txid input_vout amount
           destination_address change_address fee_per_byte live nostr_pubkey
         = Ok (tx, r) ->
         exists block_height tx_index payload others,
           parse_glyph_id nd glyph_id = Ok (block_height, tx_index)
           /\ PythonGlyphs.transfer_glyphstone_data block_height tx_index amount
              = Ok payload
           /\ vout tx = create_glyphstone_output payload :: others
           /\ read_varints 4 (tl payload) = [block_height; tx_index; amount; 1]).
Proof.
  split.
  - intros bh ti amount payload H.
    apply transfer_glyphstone_data_fields in H as [_ ->]. reflexivity.
  - intros nd glyph_id input_txid input_vout amount dst ca fee live nostr tx r H.
    unfold PythonGlyphs.transfer_glyph in H.
    bind_inv H as id Hid. destruct id as [bh ti]. cbv beta iota in H.
    bind_inv H as input_glyphs Hbal.
    destruct (input_glyphs <? amount); [discriminate|].
    bind_inv H as payload Hp. bind_inv H as txid Htxid.
    bind_inv H as txin Htxin. bind_inv H as dest Hd.
    apply construct_and_broadcast_inv in H.
    apply construct_transaction_ok in H.
    destruct H as [_ [_ [Hv _]]].
    exists bh, ti, payload, [dest].
    repeat split; try assumption.
    apply transfer_glyphstone_data_fields in Hp as [_ Hf]. exact Hf.
Qed.

Lemma transfer_output_index_is_1_witness :
  PythonGlyphs.transfer_glyphstone_data 840000 17 42
  = Ok (b "T" ++ varint 840000 ++ varint 17 ++ varint 42 ++ varint 1)
  /\ nth 3 (read_varints 4
              (tl (b "T" ++ varint 840000 ++ varint 17 ++ varint 42 ++ varint 1))) 0
     = 1.
Proof.
  split; [reflexivity|].
  apply (proj1 transfer_output_index_is_1 840000 17 42). reflexivity.
Defined.

(* ------------------------------------------------------------------------- *)
(** ** Output values *)

(** What the destination of an output comes to: the script of the address,
    and no nostr key, since [create_taproot_address] never returns. *)
Lemma destination_script_inv (nd : node) (destination_address : string)
      (nostr_pubkey : option string) (script : bytes) :
  destination_script nd destination_address nostr_pubkey = Ok script ->
  nonempty nostr_pubkey = false /\ CCoinAddress nd destination_address = Ok script.
Proof.
  unfold destination_script, nonempty.
  destruct nostr_pubkey as [k|]; [|intros H; split; [reflexivity | exact H]].
  destruct (String.eqb k ""); [intros H; split; [reflexivity | exact H]|].
  unfold create_taproot_address. intros H.
  bind_inv H as script_pubkey Hs. bind_inv H as key Hk. discriminate.
Qed.

(** The premine output of an etch holds [amount * 10^divisibility]. *)
Lemma create_glyph_output_value (nd : node) (amount divisibility : Z)
      (destination_address nostr_pubkey : option string) (out : CTxOut) :
  PythonGlyphs._create_glyph_output nd amount divisibility destination_address
    nostr_pubkey = Ok (Some out) ->
  0 <= divisibility ->
  nValue out = amount * 10 ^ divisibility.
Proof.
  unfold PythonGlyphs._create_glyph_output, atomic_units.
  destruct (0 <? amount); [|discriminate].
  destruct destination_address as [addr|]; [|discriminate].
  destruct (String.eqb addr ""); [discriminate|].
  intros H Hd. bind_inv H as script Hs.
  apply Z.leb_le in Hd. rewrite Hd in H. cbn [bind] in H.
  inversion H. reflexivity.
Qed.

(** The destination output of a mint holds [amount * 10^divisibility], with
    the divisibility the glyph was etched with. *)
Lemma mint_glyph_output_value (nd : node) (glyph_id : string) (amount : Z)
      (destination_address : string) (change_address : option string)
      (fee_per_byte : Z) (live : bool) (nostr_pubkey : option string)
      (tx : CTransaction) (r : option string) :
  PythonGlyphs.mint_glyph nd glyph_id amount destination_address change_address
    fee_per_byte live nostr_pubkey = Ok (tx, r) ->
  exists info d value glyphstone_output script,
    get_glyph_info nd glyph_id = Ok info
    /\ divisibility info = Some d
    /\ atomic_units nd amount d = Ok value
    /\ (0 <= d -> value = amount * 10 ^ d)
    /\ vout tx = [glyphstone_output; mkCTxOut value script].
Proof.
  unfold PythonGlyphs.mint_glyph. intros H.
  bind_inv H as info Hinfo. bind_inv H as open Hopen.
  destruct (negb open); [discriminate|].
  bind_inv H as fixed Hfixed.
  match type of H with (if ?c then _ else _) = _ => destruct c end; [discriminate|].
  bind_inv H as id Hid. destruct id as [bh ti]. cbv beta iota in H.
  bind_inv H as payload Hp. bind_inv H as d Hd. bind_inv H as value Hv.
  bind_inv H as script Hs.
  apply construct_and_broadcast_inv in H.
  apply construct_transaction_ok in H.
  destruct H as [_ [_ [Hout _]]].
  exists info, d, value, (create_glyphstone_output payload), script.
  split; [exact Hinfo|].
  split; [unfold subscript in Hd; destruct (divisibility info); [congruence | discriminate]|].
  split; [exact Hv|]. split; [|exact Hout].
  intros H0. unfold atomic_units in Hv. apply Z.leb_le in H0. rewrite H0 in Hv.
  inversion Hv. reflexivity.
Qed.

(** The destination output of a transfer holds [amount] as it is, and
    nothing when the destination starts with [OP_RETURN]. *)
Lemma transfer_destination_output_value (nd : node) (amount : Z)
      (destination_address : string) (nostr_pubkey : option string) (out : CTxOut) :
  PythonGlyphs.transfer_destination_output nd amount destination_address
    nostr_pubkey = Ok out ->
  nValue out = if String.prefix "OP_RETURN" destination_address then 0 else amount.
Proof.
  unfold PythonGlyphs.transfer_destination_output.
  destruct (String.prefix "OP_RETURN" destination_address).
  - intros H. inversion H. reflexivity.
  - intros H. bind_inv H as script Hs. inversion H. reflexivity.
Qed.


(* ------------------------------------------------------------------------- *)
(** ** Swaps *)

(** The script of an HTLC does not depend on the timelock it is given. *)
Lemma create_htlc_script_ignores_timelock (receiver sender hash : bytes) (t1 t2 : Z) :
  HtlcSwaps.create_htlc_script receiver sender hash t1
  = HtlcSwaps.create_htlc_script receiver sender hash t2.
Proof. reflexivity. Qed.


Lemma participate_in_swap_raises (nd : node) (glyph_id : string) (amount : Z)
      (details : HtlcSwaps.htlc_details) (destination_address : string) :
  exists e,
    HtlcSwaps.participate_in_swap nd glyph_id amount details destination_address
    = Raise e.
Proof.
  unfold HtlcSwaps.participate_in_swap. apply bind_raises. intros terms.
  apply swap_builder_raises.
Qed.

(** C9.  The mirror HTLC commits to no timelock.  [create_htlc_script]
    returns the same script for every timelock, so what
    [participate_in_swap] does is the same whatever timelock the
    counterparty's details carry; and it builds no HTLC transaction: every
    call raises.  With a secret hash of 32 bytes, a compressed public key
    and the timelock 850000, on [example_node] the call ends with the
    [AttributeError] of [coincurve.PublicKey.from_hex]. *)
Theorem mirror_htlc_ignores_timelock :
  (forall receiver sender hash t t',
      HtlcSwaps.create_htlc_script receiver sender hash t
      = HtlcSwaps.create_htlc_script receiver sender hash t')
  /\ (forall nd glyph_id amount secret_hash receiver_pubkey destination_address t t',
         HtlcSwaps.participate_in_swap nd glyph_id amount
           (HtlcSwaps.mkDetails secret_hash receiver_pubkey t) destination_address
         = HtlcSwaps.participate_in_swap nd glyph_id amount
             (HtlcSwaps.mkDetails secret_hash receiver_pubkey t') destination_address)
  /\ (forall nd glyph_id amount details destination_address,
         exists e,
           HtlcSwaps.participate_in_swap nd glyph_id amount details
             destination_address = Raise e)
  /\ HtlcSwaps.participate_in_swap example_node "840000:17" 1
       (HtlcSwaps.mkDetails test_txid
          "0279be667ef9dcbbac55a06295ce870b07029bfcdb2dce28d959f2815b16f81798"
          850000)
       test_address
     = Raise AttributeError.
Proof.
  split; [reflexivity|].
  split.
  - intros nd glyph_id amount secret_hash receiver_pubkey dst t t'.
    unfold HtlcSwaps.participate_in_swap, HtlcSwaps.participate_terms.
    cbn [HtlcSwaps.details_secret_hash HtlcSwaps.details_receiver_pubkey
         HtlcSwaps.details_timelock].
    destruct (fromhex nd secret_hash) as [hash|e]; [|reflexivity]. cbn [bind].
    destruct (PublicKey_from_hex nd receiver_pubkey) as [receiver|e]; [|reflexivity].
    cbn [bind].
    destruct (getaddressinfo_pubkey nd dst) as [own|e]; [|reflexivity]. cbn [bind].
    destruct (PublicKey_from_hex nd own) as [sender|e]; [|reflexivity].
    cbn [bind]. reflexivity.
  - split; [intros; apply participate_in_swap_raises|].
    vm_compute. reflexivity.
Qed.

(* ------------------------------------------------------------------------- *)
(** ** The mint window *)

Lemma truthy_nonzero (field : option Z) :
  truthy field = match nonzero field with Some _ => true | None => false end.
Proof. destruct field as [v|]; cbn; [destruct (v =? 0)|]; reflexivity. Qed.

Lemma nonzero_get (field : option Z) (v : Z) :
  nonzero field = Some v -> get field 0 = v /\ field = Some v.
Proof.
  destruct field as [w|]; cbn; [|discriminate].
  destruct (w =? 0); [discriminate|]. intros H. inversion H. split; reflexivity.
Qed.

Lemma start_height_eq (gi : glyph_info) :
  (if truthy (start_height gi) then get (start_height gi) 0
   else if truthy (start_offset gi)
        then get (etch_height gi) 0 + get (start_offset gi) 0
        else 0)
  = effective_start gi.
Proof.
  unfold effective_start. rewrite !truthy_nonzero.
  destruct (nonzero (start_height gi)) as [s|] eqn:E1.
  - apply nonzero_get in E1 as [E1 _]. exact E1.
  - destruct (nonzero (start_offset gi)) as [o|] eqn:E2; [|reflexivity].
    apply nonzero_get in E2 as [E2 _]. rewrite E2. reflexivity.
Qed.

Lemma end_height_eq (gi : glyph_info) :
  (if truthy (end_height gi) then Fin (get (end_height gi) 0)
   else if truthy (end_offset gi)
        then Fin (get (etch_height gi) 0 + get (end_offset gi) 0)
        else Inf)
  = effective_end gi.
Proof.
  unfold effective_end. rewrite !truthy_nonzero.
  destruct (nonzero (end_height gi)) as [e|] eqn:E1.
  - apply nonzero_get in E1 as [E1 _]. rewrite E1. reflexivity.
  - destruct (nonzero (end_offset gi)) as [o|] eqn:E2; [|reflexivity].
    apply nonzero_get in E2 as [E2 _]. rewrite E2. reflexivity.
Qed.

Lemma lt_bound_before (h : Z) (e : bound) : lt_bound h e = true <-> before h e.
Proof.
  destruct e as [e|]; cbn; [apply Z.ltb_lt|]. split; [intros _; exact I | reflexivity].
Qed.

(** The cap test of [is_mint_open] lets the call go on exactly when the
    count is below the cap. *)
Lemma cap_test_passes (gi : glyph_info) :
  (if truthy (mint_cap gi)
   then match minted_count gi with
        | Some minted => Ok (get (mint_cap gi) 0 <=? minted)
        | None => Raise TypeError
        end
   else Ok false) = Ok false
  <-> below_cap gi.
Proof.
  unfold below_cap. rewrite truthy_nonzero.
  destruct (nonzero (mint_cap gi)) as [cap|] eqn:E.
  - apply nonzero_get in E as [Eg _]. rewrite Eg.
    destruct (minted_count gi) as [m|].
    + split.
      * intros H. inversion H as [Hm]. apply Z.leb_gt in Hm.
        exists m. split; [reflexivity | exact Hm].
      * intros [m' [Hm' Hlt]]. inversion Hm'. subst m'.
        f_equal. apply Z.leb_gt. exact Hlt.
    + split; [discriminate|]. intros [m [Hm _]]. discriminate.
  - split; [intros _; exact I | reflexivity].
Qed.

(** C4, as stated, fails.  With [mint_cap] present and 0 and no mint yet,
    the stated predicate is false ([0 < 0]) and [is_mint_open] returns
    [True]; with [end_offset] present and 0 the stated window ends at the
    etch height and [is_mint_open] returns [True] at that height. *)
Lemma is_mint_open_differs_on_zero_fields :
  (PythonGlyphs.is_mint_open
     (mkGlyphInfo (Some 840000) (Some 0) (Some 2) (Some 0) None None None None None)
     840000 = Ok true
   /\ mint_open_spec
        (mkGlyphInfo (Some 840000) (Some 0) (Some 2) (Some 0) None None None None None)
        840000 = false)
  /\ (PythonGlyphs.is_mint_open
        (mkGlyphInfo (Some 840000) (Some 0) (Some 2) None None None None None (Some 0))
        840000 = Ok true
      /\ mint_open_spec
           (mkGlyphInfo (Some 840000) (Some 0) (Some 2) None None None None None (Some 0))
           840000 = false).
Proof. repeat split; vm_compute; reflexivity. Qed.

(** C4, amended.  [is_mint_open] returns [True] exactly when
    [effective_start <= h < effective_end] and, under a cap, the minted
    count is below it, where a field counts only when it is present and
    not zero: the start is [start_height], else [etch_height +
    start_offset], else 0; the end is [end_height], else [etch_height +
    end_offset], else unbounded.  It returns a truth value whenever the
    minted count is present. *)
Theorem is_mint_open_iff (gi : glyph_info) (h : Z) :
  (PythonGlyphs.is_mint_open gi h = Ok true
   <-> effective_start gi <= h /\ before h (effective_end gi) /\ below_cap gi)
  /\ (minted_count gi <> None ->
      exists open, PythonGlyphs.is_mint_open gi h = Ok open).
Proof.
  unfold PythonGlyphs.is_mint_open.
  rewrite start_height_eq, end_height_eq.
  split.
  - rewrite <- cap_test_passes. split.
    + intros H. bind_inv H as capped Hc. destruct capped; [discriminate|].
      inversion H as [Hw]. apply andb_true_iff in Hw as [Hs He].
      apply Z.leb_le in Hs. apply lt_bound_before in He.
      repeat split; assumption.
    + intros [Hs [He Hc]]. rewrite Hc. cbn [bind]. f_equal.
      apply andb_true_iff. split; [apply Z.leb_le | apply lt_bound_before]; assumption.
  - intros Hm.
    destruct (minted_count gi) as [m|]; [|congruence].
    destruct (truthy (mint_cap gi)); cbn [bind].
    + destruct (get (mint_cap gi) 0 <=? m); eexists; reflexivity.
    + eexists; reflexivity.
Qed.

(** The glyph 840000:17 of [example_node], capped at 1000 mints with none
    made and an end offset of 1000, is open at height 840100. *)
Lemma is_mint_open_iff_witness :
  (effective_start
     (mkGlyphInfo (Some 840000) (Some 0) (Some 2) (Some 1000) (Some 10)
                  None None None (Some 1000)) <= 840100
   /\ before 840100
        (effective_end
           (mkGlyphInfo (Some 840000) (Some 0) (Some 2) (Some 1000) (Some 10)
                        None None None (Some 1000)))
   /\ below_cap
        (mkGlyphInfo (Some 840000) (Some 0) (Some 2) (Some 1000) (Some 10)
                     None None None (Some 1000)))
  /\ PythonGlyphs.is_mint_open
       (mkGlyphInfo (Some 840000) (Some 0) (Some 2) (Some 1000) (Some 10)
                    None None None (Some 1000)) 840100 = Ok true
  /\ (Some 0 <> (None : option Z)
      /\ exists open,
          PythonGlyphs.is_mint_open
            (mkGlyphInfo (Some 840000) (Some 0) (Some 2) (Some 1000) (Some 10)
                         None None None (Some 1000)) 840100 = Ok open).
Proof.
  assert (H : effective_start
                (mkGlyphInfo (Some 840000) (Some 0) (Some 2) (Some 1000) (Some 10)
                             None None None (Some 1000)) <= 840100
              /\ before 840100
                   (effective_end
                      (mkGlyphInfo (Some 840000) (Some 0) (Some 2) (Some 1000)
                                   (Some 10) None None None (Some 1000)))
              /\ below_cap
                   (mkGlyphInfo (Some 840000) (Some 0) (Some 2) (Some 1000)
                                (Some 10) None None None (Some 1000))).
  { split; [vm_compute; discriminate|]. split; [vm_compute; reflexivity|].
    exists 0. split; [reflexivity | lia]. }
  split; [exact H|]. split.
  - apply (proj2 (proj1 (is_mint_open_iff
                           (mkGlyphInfo (Some 840000) (Some 0) (Some 2) (Some 1000)
                                        (Some 10) None None None (Some 1000))
                           840100)) H).
  - split; [discriminate|].
    apply (proj2 (is_mint_open_iff
                    (mkGlyphInfo (Some 840000) (Some 0) (Some 2) (Some 1000)
                                 (Some 10) None None None (Some 1000)) 840100)).
    discriminate.
Defined.

(* ------------------------------------------------------------------------- *)
(** ** Symbol codec *)

Lemma combine_snoc {A B : Type} (l : list A) :
  forall (l' : list B) (x : A) (y : B),
    List.length l = List.length l' ->
    combine (l ++ [x]) (l' ++ [y]) = combine l l' ++ [(x, y)].
Proof.
  induction l as [|a l IH]; intros [|a' l'] x y Hl; try discriminate.
  - reflexivity.
  - cbn. f_equal. apply IH. cbn in Hl. lia.
Qed.

Lemma enumerate_snoc {A : Type} (l : list A) (x : A) :
  enumerate (l ++ [x]) = enumerate l ++ [(len l, x)].
Proof.
  unfold enumerate, len. rewrite length_app. cbn [List.length].
  replace (List.length l + 1)%nat with (S (List.length l)) by lia.
  rewrite seq_S, map_app. cbn [map plus].
  apply combine_snoc. rewrite length_map, length_seq. reflexivity.
Qed.

Lemma length_rev_len {A : Type} (l : list A) : len (rev l) = len l.
Proof. unfold len. rewrite length_rev. reflexivity. Qed.

Lemma len_cons {A : Type} (x : A) (l : list A) : len (x :: l) = len l + 1.
Proof. unfold len. cbn [List.length]. lia. Qed.

Lemma len_nonneg {A : Type} (l : list A) : 0 <= len l.
Proof. unfold len. lia. Qed.

(** A letter put in front of a symbol weighs its rank times 26 to the
    number of letters behind it. *)
Lemma symbol_value_cons (c : Z) (symbol : pystr) :
  symbol_value (c :: symbol)
  = (c - ord_A + BASE_OFFSET) * 26 ^ len symbol + symbol_value symbol.
Proof.
  unfold symbol_value. cbn [rev]. rewrite enumerate_snoc, fold_left_app.
  cbn [fold_left]. rewrite length_rev_len. lia.
Qed.

Lemma alphabet_at (r : Z) : 0 <= r < 26 -> getitem alphabet r = ord_A + r.
Proof.
  intros Hr. assert (H : exists n : nat, r = Z.of_nat n /\ (n < 26)%nat).
  { exists (Z.to_nat r). lia. }
  destruct H as [n [-> Hn]].
  do 26 (destruct n as [|n]; [reflexivity|]). lia.
Qed.

(** One turn of the loop of [int_to_symbol]: the quotient and the letter. *)
Lemma divmod_26 (num : Z) :
  0 < num ->
  let q := (num - BASE_OFFSET) / 26 in
  let r := (num - BASE_OFFSET) mod 26 in
  0 <= r < 26 /\ 0 <= q /\ num = 26 * q + r + 1 /\ 2 * q <= num.
Proof.
  intros Hn q r. unfold BASE_OFFSET in *.
  pose proof (Z.mod_pos_bound (num - 1) 26 ltac:(lia)) as Hr.
  pose proof (Z.div_mod (num - 1) 26 ltac:(lia)) as Hd.
  assert (Hq : 0 <= q) by (apply Z.div_pos; lia).
  subst q r. repeat split; lia.
Qed.

(** What the loop of [int_to_symbol] returns, given fuel for [num]: letters
    only, spelling [num] in front of what was there, and at most [k] more
    letters when [num <= max_symbol k]. *)
Lemma int_to_symbol_loop_spec (fuel : nat) :
  forall num symbol,
    0 <= num < 2 ^ Z.of_nat fuel ->
    Forall letter symbol ->
    let name := int_to_symbol_loop fuel num symbol in
    Forall letter name
    /\ symbol_value name = num * 26 ^ len symbol + symbol_value symbol
    /\ len symbol <= len name
    /\ (0 < num -> len symbol < len name)
    /\ (forall k, num <= max_symbol k -> len name <= len symbol + Z.of_nat k).
Proof.
  induction fuel as [|fuel IH]; intros num symbol Hnum Hsym name.
  - change (2 ^ Z.of_nat 0) with 1 in Hnum. assert (num = 0) by lia. subst num.
    subst name. cbn [int_to_symbol_loop].
    split; [exact Hsym|]. split; [lia|]. split; [lia|]. split; [lia|].
    intros k _. lia.
  - subst name. cbn [int_to_symbol_loop].
    destruct (0 <? num) eqn:E.
    + apply Z.ltb_lt in E.
      destruct (divmod_26 num E) as [Hr [Hq [Hnq Hhalf]]].
      set (q := (num - BASE_OFFSET) / 26) in *.
      set (r := (num - BASE_OFFSET) mod 26) in *.
      clearbody q r.
      assert (Hq2 : 0 <= q < 2 ^ Z.of_nat fuel).
      { split; [exact Hq|]. rewrite Nat2Z.inj_succ, Z.pow_succ_r in Hnum by lia. lia. }
      assert (Hl : Forall letter (getitem alphabet r :: symbol)).
      { constructor; [|exact Hsym]. rewrite alphabet_at by exact Hr.
        unfold letter, ord_A. lia. }
      destruct (IH q (getitem alphabet r :: symbol) Hq2 Hl) as [H1 [H2 [H3 [H4 H5]]]].
      rewrite len_cons in *.
      split; [exact H1|]. split.
      * rewrite H2, symbol_value_cons, alphabet_at by exact Hr.
        rewrite Z.pow_add_r by (try apply len_nonneg; lia).
        unfold ord_A, BASE_OFFSET. rewrite Hnq. ring.
      * split; [lia|]. split; [lia|].
        intros k Hk. destruct k as [|k].
        -- cbn [max_symbol] in Hk. lia.
        -- cbn [max_symbol] in Hk.
           assert (Hqk : q <= max_symbol k) by lia.
           specialize (H5 k Hqk). lia.
    + apply Z.ltb_ge in E. assert (num = 0) by lia. subst num.
      split; [exact Hsym|]. split; [lia|]. split; [lia|]. split; [lia|].
      intros k _. lia.
Qed.

Lemma log2_symbol_fuel (num : Z) :
  0 < num -> 0 <= num < 2 ^ Z.of_nat (S (Z.to_nat (Z.log2 num))).
Proof.
  intros Hn. split; [lia|].
  rewrite Nat2Z.inj_succ, Z2Nat.id by apply Z.log2_nonneg.
  apply Z.log2_spec. exact Hn.
Qed.

(** [int_to_symbol] on a positive integer: a nonempty run of letters that
    spells it. *)
Lemma int_to_symbol_ok (num : Z) :
  0 < num ->
  exists name,
    int_to_symbol num = Ok name
    /\ Forall letter name
    /\ symbol_value name = num
    /\ 0 < len name
    /\ (forall k, num <= max_symbol k -> len name <= Z.of_nat k).
Proof.
  intros Hn. unfold int_to_symbol.
  replace (num <? 0) with false by (symmetry; apply Z.ltb_ge; lia).
  replace (num =? 0) with false by (symmetry; apply Z.eqb_neq; lia).
  rewrite !andb_false_r.
  eexists. split; [reflexivity|].
  destruct (int_to_symbol_loop_spec _ num [] (log2_symbol_fuel num Hn) (Forall_nil _))
    as [H1 [H2 [H3 [H4 H5]]]].
  split; [exact H1|]. split.
  - rewrite H2. cbn. lia.
  - split; [apply H4; exact Hn|]. intros k Hk. specialize (H5 k Hk).
    change (len (@nil Z)) with 0 in H5. lia.
Qed.

(** Names made of letters only. *)
Lemma is_valid_glyph_name_loop_letters (isalpha isupper : Z -> bool) (name : pystr) :
  uppercase_latin isalpha isupper ->
  forall items letter_count,
    Forall (fun item => letter (snd item)) items ->
    is_valid_glyph_name_loop isalpha isupper name items letter_count
    = (0 <? letter_count + len items)
      && (letter_count + len items <=? MAX_GLYPH_NAME_LENGTH).
Proof.
  intros Hu. induction items as [|[i c] items IH]; intros k Hl.
  - cbn [is_valid_glyph_name_loop]. change (len (@nil (Z * Z))) with 0.
    rewrite Z.add_0_r. reflexivity.
  - inversion Hl as [|x l Hc Hl']. subst. cbn [snd] in Hc.
    cbn [is_valid_glyph_name_loop].
    destruct (Hu c Hc) as [-> ->]. cbn [andb].
    rewrite IH by exact Hl'. rewrite len_cons.
    replace (k + 1 + len items) with (k + (len items + 1)) by lia. reflexivity.
Qed.

Lemma enumerate_snd {A : Type} (P : A -> Prop) (l : list A) :
  Forall P l -> Forall (fun item => P (snd item)) (enumerate l).
Proof.
  intros H. apply Forall_forall. intros [i x] Hin.
  apply in_combine_r in Hin. rewrite Forall_forall in H. apply H. exact Hin.
Qed.

Lemma len_enumerate {A : Type} (l : list A) : len (enumerate l) = len l.
Proof.
  unfold enumerate, len. rewrite length_combine, length_map, length_seq.
  rewrite Nat.min_id. reflexivity.
Qed.

Lemma is_valid_glyph_name_letters (isalpha isupper : Z -> bool) (name : pystr) :
  uppercase_latin isalpha isupper ->
  Forall letter name ->
  0 < len name <= MAX_GLYPH_NAME_LENGTH ->
  is_valid_glyph_name isalpha isupper name = true.
Proof.
  intros Hu Hl [H0 H26]. unfold is_valid_glyph_name.
  replace (len name =? 0) with false by (symmetry; apply Z.eqb_neq; lia).
  replace (MAX_GLYPH_NAME_LENGTH <? len name) with false
    by (symmetry; apply Z.ltb_ge; lia).
  cbn [orb].
  rewrite is_valid_glyph_name_loop_letters
    by (try assumption; apply enumerate_snd; assumption).
  rewrite len_enumerate. apply andb_true_iff.
  split; [apply Z.ltb_lt | apply Z.leb_le]; lia.
Qed.

Lemma letters_have_no_spacer (name : pystr) :
  Forall letter name ->
  ~ In spacer name /\ filter (fun c => negb (c =? spacer)) name = name.
Proof.
  intros Hl. split.
  - intros Hin. rewrite Forall_forall in Hl. specialize (Hl _ Hin).
    unfold letter, spacer in Hl. lia.
  - induction Hl as [|c name Hc Hl IH]; [reflexivity|].
    cbn [filter]. replace (c =? spacer) with false.
    + cbn [negb]. rewrite IH. reflexivity.
    + symmetry. apply Z.eqb_neq. unfold letter, spacer in *. lia.
Qed.

Lemma symbol_to_int_letters (isalpha isupper : Z -> bool) (name : pystr) :
  uppercase_latin isalpha isupper ->
  Forall letter name ->
  0 < len name <= MAX_GLYPH_NAME_LENGTH ->
  symbol_to_int isalpha isupper name = Ok (symbol_value name).
Proof.
  intros Hu Hl Hlen. unfold symbol_to_int.
  rewrite is_valid_glyph_name_letters by assumption. cbn [negb].
  destruct (letters_have_no_spacer name Hl) as [_ ->]. reflexivity.
Qed.

Lemma symbol_to_int_of_letters (isalpha isupper : Z -> bool) (name : pystr) (v : Z) :
  uppercase_latin isalpha isupper ->
  Forall letter name ->
  0 < len name <= MAX_GLYPH_NAME_LENGTH ->
  symbol_value name = v ->
  symbol_to_int isalpha isupper name = Ok v.
Proof. intros Hu Hl Hlen <-. apply symbol_to_int_letters; assumption. Qed.

Lemma latin1_uppercase : uppercase_latin latin1_isalpha latin1_isupper.
Proof.
  intros c Hc. unfold latin1_isalpha, latin1_isupper, between.
  replace (65 <=? c) with true by (symmetry; apply Z.leb_le; lia).
  replace (c <=? 90) with true by (symmetry; apply Z.leb_le; lia).
  split; reflexivity.
Qed.

(** Rewrites [isalpha c] and [isupper c] to [true] for the letter [c]. *)
Ltac is_letter Hu c :=
  let Ha := fresh "Ha" in
  let Hb := fresh "Hb" in
  destruct (Hu c ltac:(lia)) as [Ha Hb]; rewrite ?Ha, ?Hb; clear Ha Hb.

(** A spacer between letters is accepted, whatever [isalpha] and [isupper]
    say of the spacer itself. *)
Lemma test_coin_is_valid (isalpha isupper : Z -> bool) :
  uppercase_latin isalpha isupper ->
  is_valid_glyph_name isalpha isupper (str "TEST" ++ [spacer] ++ str "COIN") = true.
Proof.
  intros Hu. vm_compute.
  is_letter Hu 84. is_letter Hu 69. is_letter Hu 83. is_letter Hu 67.
  is_letter Hu 79. is_letter Hu 73. is_letter Hu 78.
  destruct (isalpha 8226); [destruct (isupper 8226)|]; reflexivity.
Qed.

(** C6, as stated, fails at its last seed: the integer of [TESTCOIN] is
    162415731180, not 3299942111, which is the integer of [JQSFSDK]. *)
Lemma testcoin_is_not_3299942111 :
  symbol_to_int latin1_isalpha latin1_isupper (str "TESTCOIN") = Ok 162415731180
  /\ symbol_to_int latin1_isalpha latin1_isupper (str "TESTCOIN") <> Ok 3299942111
  /\ int_to_symbol 3299942111 = Ok (str "JQSFSDK").
Proof.
  split; [vm_compute; reflexivity|].
  split; [vm_compute; discriminate | vm_compute; reflexivity].
Qed.

(** C6, amended.  For every [n] with [1 <= n <= 26^26], [int_to_symbol n]
    is a valid glyph name without spacers and [symbol_to_int] takes it back
    to [n]; the integers of [A], [Z] and [AA] are 1, 26 and 27, and the
    integer of [TEST•COIN], as of [TESTCOIN], is 162415731180. *)
Theorem symbol_round_trip (isalpha isupper : Z -> bool) :
  uppercase_latin isalpha isupper ->
  (forall n, 1 <= n <= 26 ^ 26 ->
     exists name,
       int_to_symbol n = Ok name
       /\ is_valid_glyph_name isalpha isupper name = true
       /\ ~ In spacer name
       /\ symbol_to_int isalpha isupper name = Ok n)
  /\ symbol_to_int isalpha isupper (str "A") = Ok 1
  /\ symbol_to_int isalpha isupper (str "Z") = Ok 26
  /\ symbol_to_int isalpha isupper (str "AA") = Ok 27
  /\ symbol_to_int isalpha isupper (str "TEST" ++ [spacer] ++ str "COIN")
     = Ok 162415731180
  /\ symbol_to_int isalpha isupper (str "TESTCOIN") = Ok 162415731180.
Proof.
  intros Hu. split.
  - intros n [H1 H26].
    destruct (int_to_symbol_ok n ltac:(lia)) as [name [Hn [Hl [Hv [Hpos Hlen]]]]].
    exists name. split; [exact Hn|].
    assert (Hb : 0 < len name <= MAX_GLYPH_NAME_LENGTH).
    { split; [exact Hpos|]. apply (Hlen 26%nat).
      eapply Z.le_trans; [exact H26|]. vm_compute. discriminate. }
    split; [apply is_valid_glyph_name_letters; assumption|].
    split; [apply letters_have_no_spacer; exact Hl|].
    rewrite symbol_to_int_letters by assumption. rewrite Hv. reflexivity.
  - pose proof (fun name v => symbol_to_int_of_letters isalpha isupper name v Hu) as Hs.
    repeat split.
    + apply Hs; [repeat constructor; unfold letter; cbn; lia | vm_compute; split; congruence | reflexivity].
    + apply Hs; [repeat constructor; unfold letter; cbn; lia | vm_compute; split; congruence | reflexivity].
    + apply Hs; [repeat constructor; unfold letter; cbn; lia | vm_compute; split; congruence | reflexivity].
    + unfold symbol_to_int. rewrite test_coin_is_valid by exact Hu.
      vm_compute. reflexivity.
    + apply Hs; [repeat constructor; unfold letter; cbn; lia | vm_compute; split; congruence | vm_compute; reflexivity].
Qed.

Lemma symbol_round_trip_witness :
  1 <= 162415731180 <= 26 ^ 26
  /\ exists name,
      int_to_symbol 162415731180 = Ok name
      /\ is_valid_glyph_name latin1_isalpha latin1_isupper name = true
      /\ ~ In spacer name
      /\ symbol_to_int latin1_isalpha latin1_isupper name = Ok 162415731180.
Proof.
  split; [vm_compute; split; discriminate|].
  apply (proj1 (symbol_round_trip latin1_isalpha latin1_isupper latin1_uppercase)
               162415731180).
  vm_compute. split; discriminate.
Defined.

(* ------------------------------------------------------------------------- *)
(** ** The etch payload *)

Lemma add_tagged_ok (tag : string) (field : option Z) (glyphstone_data : bytes) :
  encodable field ->
  add_tagged tag field glyphstone_data = Ok (glyphstone_data ++ tagged_field tag field).
Proof.
  unfold add_tagged, tagged_field, nonzero, encodable.
  destruct field as [v|]; [|intros _; rewrite app_nil_r; reflexivity].
  intros Hv. destruct (v =? 0); [rewrite app_nil_r; reflexivity|].
  rewrite encode_varint_ok by exact Hv. reflexivity.
Qed.

(** What [_add_optional_mint_params] appends: the symbol in UTF-8, the
    premine when it is not zero, then the tagged fields that are present
    and not zero, in the order C, A, S, H, O, F. *)
Lemma add_optional_mint_params_ok (glyphstone_data : bytes) (symbol : pystr)
      (premine : Z)
      (mint_cap mint_amount start_height end_height start_offset end_offset : option Z)
      (symbol_utf8 : bytes) :
  encode_utf8 symbol = Ok symbol_utf8 ->
  0 <= premine ->
  encodable mint_cap -> encodable mint_amount ->
  encodable start_height -> encodable end_height ->
  encodable start_offset -> encodable end_offset ->
  _add_optional_mint_params glyphstone_data symbol premine mint_cap mint_amount
    start_height end_height start_offset end_offset
  = Ok (glyphstone_data
          ++ symbol_utf8
          ++ (if premine =? 0 then [] else varint premine)
          ++ tagged_field "C" mint_cap
          ++ tagged_field "A" mint_amount
          ++ tagged_field "S" start_height
          ++ tagged_field "H" end_height
          ++ tagged_field "O" start_offset
          ++ tagged_field "F" end_offset).
Proof.
  intros Hsym Hp Hc Ha Hs Hh Ho Hf. unfold _add_optional_mint_params.
  assert (H1 : match symbol with
               | [] => Ok glyphstone_data
               | _ :: _ => s <- encode_utf8 symbol ;; Ok (glyphstone_data ++ s)
               end = Ok (glyphstone_data ++ symbol_utf8)).
  { destruct symbol as [|c symbol].
    - cbn in Hsym. inversion Hsym. rewrite app_nil_r. reflexivity.
    - rewrite Hsym. reflexivity. }
  rewrite H1. cbn [bind].
  destruct (premine =? 0); [|rewrite encode_varint_ok by exact Hp]; cbn [bind];
    rewrite (add_tagged_ok "C") by exact Hc; cbn [bind];
    rewrite (add_tagged_ok "A") by exact Ha; cbn [bind];
    rewrite (add_tagged_ok "S") by exact Hs; cbn [bind];
    rewrite (add_tagged_ok "H") by exact Hh; cbn [bind];
    rewrite (add_tagged_ok "O") by exact Ho; cbn [bind];
    rewrite (add_tagged_ok "F") by exact Hf; cbn [bind];
    rewrite <- !app_assoc; reflexivity.
Qed.

(** C3, as stated, fails.  The etch of the seed scenario yields a payload
    with the name integer 162415731180 and without an O field, since a
    start offset of 0 counts as not given; it is neither the stated
    payload nor the stated payload with the name integer put right. *)
Lemma etch_payload_differs :
  PythonGlyphs.etch_glyphstone_data latin1_isalpha latin1_isupper
    (str "TESTCOIN") 2 [0xA4] 0
    (Some 1000) (Some 10) None None (Some 0) (Some 1000)
  = Ok (b "E" ++ varint 162415731180 ++ varint 2 ++ [Byte.xc2; Byte.xa4]
          ++ b "C" ++ varint 1000 ++ b "A" ++ varint 10 ++ b "F" ++ varint 1000)
  /\ PythonGlyphs.etch_glyphstone_data latin1_isalpha latin1_isupper
       (str "TESTCOIN") 2 [0xA4] 0
       (Some 1000) (Some 10) None None (Some 0) (Some 1000)
     <> Ok (b "E" ++ varint 3299942111 ++ varint 2 ++ [Byte.xc2; Byte.xa4]
              ++ b "C" ++ varint 1000 ++ b "A" ++ varint 10
              ++ b "O" ++ varint 0 ++ b "F" ++ varint 1000)
  /\ PythonGlyphs.etch_glyphstone_data latin1_isalpha latin1_isupper
       (str "TESTCOIN") 2 [0xA4] 0
       (Some 1000) (Some 10) None None (Some 0) (Some 1000)
     <> Ok (b "E" ++ varint 162415731180 ++ varint 2 ++ [Byte.xc2; Byte.xa4]
              ++ b "C" ++ varint 1000 ++ b "A" ++ varint 10
              ++ b "O" ++ varint 0 ++ b "F" ++ varint 1000).
Proof.
  split; [vm_compute; reflexivity|].
  split; vm_compute; discriminate.
Qed.

(** C3, amended.  Etching [TESTCOIN] with divisibility 2, symbol [¤], mint
    cap 1000, mint amount 10, start offset 0 and end offset 1000 produces
    [E], the varints of 162415731180 and of 2, the UTF-8 of [¤], then
    [C] 1000, [A] 10 and [F] 1000; and in general every tagged field that
    is present and not zero is emitted, after the symbol and the premine,
    in the order C, A, S, H, O, F. *)
Theorem etch_payload (isalpha isupper : Z -> bool) :
  uppercase_latin isalpha isupper ->
  PythonGlyphs.etch_glyphstone_data isalpha isupper
    (str "TESTCOIN") 2 [0xA4] 0
    (Some 1000) (Some 10) None None (Some 0) (Some 1000)
  = Ok (b "E" ++ varint 162415731180 ++ varint 2 ++ [Byte.xc2; Byte.xa4]
          ++ b "C" ++ varint 1000 ++ b "A" ++ varint 10 ++ b "F" ++ varint 1000)
  /\ (forall glyphstone_data symbol premine mint_cap mint_amount start_height
             end_height start_offset end_offset symbol_utf8,
         encode_utf8 symbol = Ok symbol_utf8 ->
         0 <= premine ->
         encodable mint_cap -> encodable mint_amount ->
         encodable start_height -> encodable end_height ->
         encodable start_offset -> encodable end_offset ->
         _add_optional_mint_params glyphstone_data symbol premine mint_cap
           mint_amount start_height end_height start_offset end_offset
         = Ok (glyphstone_data
                 ++ symbol_utf8
                 ++ (if premine =? 0 then [] else varint premine)
                 ++ tagged_field "C" mint_cap
                 ++ tagged_field "A" mint_amount
                 ++ tagged_field "S" start_height
                 ++ tagged_field "H" end_height
                 ++ tagged_field "O" start_offset
                 ++ tagged_field "F" end_offset)).
Proof.
  intros Hu. split.
  - unfold PythonGlyphs.etch_glyphstone_data.
    rewrite (symbol_to_int_of_letters isalpha isupper (str "TESTCOIN") 162415731180 Hu)
      by (try (repeat constructor; unfold letter; cbn; lia);
          vm_compute; try split; congruence).
    vm_compute. reflexivity.
  - intros. apply add_optional_mint_params_ok; assumption.
Qed.

Lemma etch_payload_witness :
  PythonGlyphs.etch_glyphstone_data latin1_isalpha latin1_isupper
    (str "TESTCOIN") 2 [0xA4] 0
    (Some 1000) (Some 10) None None (Some 0) (Some 1000)
  = Ok (b "E" ++ varint 162415731180 ++ varint 2 ++ [Byte.xc2; Byte.xa4]
          ++ b "C" ++ varint 1000 ++ b "A" ++ varint 10 ++ b "F" ++ varint 1000)
  /\ encode_utf8 [0xA4] = Ok [Byte.xc2; Byte.xa4]
  /\ _add_optional_mint_params (b "E" ++ varint 27 ++ varint 2) [0xA4] 5
       (Some 1000) None (Some 840000) None (Some 0) (Some 1000)
     = Ok ((b "E" ++ varint 27 ++ varint 2)
             ++ [Byte.xc2; Byte.xa4]
             ++ (if 5 =? 0 then [] else varint 5)
             ++ tagged_field "C" (Some 1000)
             ++ tagged_field "A" None
             ++ tagged_field "S" (Some 840000)
             ++ tagged_field "H" None
             ++ tagged_field "O" (Some 0)
             ++ tagged_field "F" (Some 1000)).
Proof.
  split;
    [exact (proj1 (etch_payload latin1_isalpha latin1_isupper latin1_uppercase))|].
  split; [reflexivity|].
  apply (proj2 (etch_payload latin1_isalpha latin1_isupper latin1_uppercase));
    cbn; try reflexivity; try exact I; lia.
Defined.

(* ------------------------------------------------------------------------- *)
(** ** Glyph names *)

(** C8 at a name outside A-Z.  [É] (U+00C9) is an uppercase letter for
    [str.isalpha] and [str.isupper]; the one-character name [É] is
    accepted by [is_valid_glyph_name], and [symbol_to_int] gives it the
    integer 137, although it is not one of the letters A to Z. *)
Theorem accented_capital_is_accepted :
  latin1_isalpha 0xC9 = true
  /\ latin1_isupper 0xC9 = true
  /\ ~ letter 0xC9
  /\ is_valid_glyph_name latin1_isalpha latin1_isupper [0xC9] = true
  /\ symbol_to_int latin1_isalpha latin1_isupper [0xC9] = Ok 137.
Proof.
  split; [reflexivity|]. split; [reflexivity|].
  split; [unfold letter; lia|]. split; reflexivity.
Qed.

(** *** Names over A-Z and the spacer *)

Lemma letter_test (c : Z) : (65 <=? c) && (c <=? 90) = true <-> letter c.
Proof.
  unfold letter. rewrite andb_true_iff, !Z.leb_le. reflexivity.
Qed.

Lemma count_letters_bounds (items : list (Z * Z)) :
  0 <= count_letters items <= len items.
Proof.
  induction items as [|[i c] items IH]; [cbn; lia|].
  cbn [count_letters]. rewrite len_cons.
  destruct ((65 <=? c) && (c <=? 90)); lia.
Qed.

Lemma count_letters_pos (items : list (Z * Z)) :
  0 < count_letters items <-> exists item, In item items /\ letter (snd item).
Proof.
  induction items as [|[i c] items IH].
  - cbn. split; [lia | intros [item [[] _]]].
  - cbn [count_letters]. pose proof (count_letters_bounds items) as Hb.
    destruct ((65 <=? c) && (c <=? 90)) eqn:E.
    + split; [|lia]. intros _. exists (i, c). split; [left; reflexivity|].
      apply letter_test. exact E.
    + rewrite Z.add_0_l, IH. split.
      * intros [item [Hin Hl]]. exists item. split; [right; exact Hin | exact Hl].
      * intros [item [[Heq|Hin] Hl]].
        -- subst item. cbn [snd] in Hl. apply letter_test in Hl. congruence.
        -- exists item. split; assumption.
Qed.

(** The loop of [is_valid_glyph_name] accepts exactly when every item is a
    letter or a well placed spacer and the letters counted stay within 1
    and 26. *)
Lemma is_valid_glyph_name_loop_iff (isalpha isupper : Z -> bool) (name : pystr) :
  forall items letter_count,
    (forall item, In item items ->
       (isalpha (snd item) && isupper (snd item) = true <-> letter (snd item))) ->
    is_valid_glyph_name_loop isalpha isupper name items letter_count = true
    <-> (forall item, In item items ->
           letter (snd item)
           \/ (snd item = spacer /\ well_placed name (fst item)))
        /\ 0 < letter_count + count_letters items <= MAX_GLYPH_NAME_LENGTH.
Proof.
  induction items as [|[i c] items IH]; intros k Hp.
  - cbn [is_valid_glyph_name_loop count_letters].
    rewrite andb_true_iff, Z.ltb_lt, Z.leb_le, Z.add_0_r.
    split; [intros H; split; [intros item []|exact H] | intros [_ H]; exact H].
  - cbn [is_valid_glyph_name_loop count_letters].
    assert (Hp' : forall item, In item items ->
                    (isalpha (snd item) && isupper (snd item) = true
                     <-> letter (snd item)))
      by (intros item Hin; apply Hp; right; exact Hin).
    pose proof (Hp (i, c) (or_introl eq_refl)) as Hc. cbn [snd] in Hc.
    destruct (isalpha c && isupper c) eqn:E.
    + assert (Hl : letter c) by (apply Hc; reflexivity).
      assert (Ht : (65 <=? c) && (c <=? 90) = true) by (apply letter_test; exact Hl).
      rewrite Ht, (IH (k + 1) Hp'). split.
      * intros [Hall Hk]. split; [|lia].
        intros item [Heq|Hin]; [subst item; left; exact Hl | apply Hall; exact Hin].
      * intros [Hall Hk]. split; [|lia].
        intros item Hin. apply Hall. right. exact Hin.
    + assert (Hn : ~ letter c) by (intros Hl; apply Hc in Hl; discriminate).
      assert (Ht : (65 <=? c) && (c <=? 90) = false).
      { destruct ((65 <=? c) && (c <=? 90)) eqn:E'; [|reflexivity].
        apply letter_test in E'. contradiction. }
      rewrite Ht, Z.add_0_l.
      destruct (c =? spacer) eqn:Es.
      * apply Z.eqb_eq in Es.
        destruct ((i =? 0) || (i =? len name - 1)
                  || (getitem name (i - 1) =? spacer)
                  || (getitem name (i + 1) =? spacer)) eqn:Eb.
        -- split; [discriminate|]. intros [Hall _].
           destruct (Hall (i, c) (or_introl eq_refl)) as [Hl|[_ Hw]];
             [contradiction|]. cbn [fst] in Hw.
           destruct Hw as [H0 [H1 [H2 H3]]].
           rewrite !orb_true_iff, !Z.eqb_eq in Eb. intuition.
        -- rewrite !orb_false_iff, !Z.eqb_neq in Eb.
           destruct Eb as [[[H0 H1] H2] H3].
           rewrite (IH k Hp'). split.
           ++ intros [Hall Hk]. split; [|exact Hk].
              intros item [Heq|Hin]; [|apply Hall; exact Hin].
              subst item. right. cbn [fst snd].
              split; [exact Es|]. repeat split; assumption.
           ++ intros [Hall Hk]. split; [|exact Hk].
              intros item Hin. apply Hall. right. exact Hin.
      * apply Z.eqb_neq in Es. split; [discriminate|]. intros [Hall _].
        destruct (Hall (i, c) (or_introl eq_refl)) as [Hl|[Hs _]];
          [contradiction | cbn [snd] in Hs; contradiction].
Qed.

(** The items of [enumerate name] are the indices of [name] with the
    characters found there. *)
Lemma in_enumerate (name : pystr) (i c : Z) :
  In (i, c) (enumerate name) <-> 0 <= i < len name /\ getitem name i = c.
Proof.
  induction name as [|x name IH] using rev_ind.
  - cbn. unfold len. cbn. split; [intros [] | lia].
  - rewrite enumerate_snoc, in_app_iff, IH.
    unfold getitem, len. rewrite length_app. cbn [List.length In].
    split.
    + intros [[Hi Hc]|[Heq|[]]].
      * split; [lia|]. rewrite app_nth1 by lia. exact Hc.
      * inversion Heq. subst. split; [lia|].
        rewrite Nat2Z.id. apply nth_middle.
    + intros [Hi Hc].
      destruct (Z.eq_dec i (Z.of_nat (List.length name))) as [->|Hne].
      * right. left. rewrite Nat2Z.id, nth_middle in Hc. subst. reflexivity.
      * left. split; [lia|]. rewrite app_nth1 in Hc by lia. exact Hc.
Qed.

(** On a name whose characters [isalpha] and [isupper] class as the
    alphabet A-Z does, [is_valid_glyph_name] decides the grammar of glyph
    names. *)
Lemma is_valid_glyph_name_iff (isalpha isupper : Z -> bool) (name : pystr) :
  plain isalpha isupper name ->
  is_valid_glyph_name isalpha isupper name = true <-> name_grammar name.
Proof.
  intros Hp. unfold is_valid_glyph_name, name_grammar.
  pose proof (len_nonneg name) as Hlen.
  assert (Hitems : forall item, In item (enumerate name) ->
                     (isalpha (snd item) && isupper (snd item) = true
                      <-> letter (snd item))).
  { intros [i c] Hin. apply Hp. apply in_combine_r in Hin. exact Hin. }
  destruct ((len name =? 0) || (MAX_GLYPH_NAME_LENGTH <? len name)) eqn:E.
  - split; [discriminate|]. intros [Hl _].
    rewrite orb_true_iff, Z.eqb_eq, Z.ltb_lt in E. lia.
  - rewrite orb_false_iff, Z.eqb_neq, Z.ltb_ge in E.
    rewrite (is_valid_glyph_name_loop_iff isalpha isupper name _ 0 Hitems).
    rewrite Z.add_0_l.
    pose proof (count_letters_bounds (enumerate name)) as Hb.
    rewrite len_enumerate in Hb.
    split.
    + intros [Hall [Hpos _]]. split; [lia|]. split.
      * intros i Hi.
        apply (Hall (i, getitem name i)). apply in_enumerate. split; [exact Hi | reflexivity].
      * apply count_letters_pos in Hpos. destruct Hpos as [[i c] [Hin Hl]].
        apply in_enumerate in Hin as [Hi Hc]. cbn [snd] in Hl.
        exists i. split; [exact Hi | rewrite Hc; exact Hl].
    + intros [_ [Hall [i [Hi Hl]]]]. split.
      * intros [j c] Hin. apply in_enumerate in Hin as [Hj Hc]. cbn [fst snd].
        rewrite <- Hc. apply Hall. exact Hj.
      * split; [|lia]. apply count_letters_pos.
        exists (i, getitem name i). split; [|exact Hl].
        apply in_enumerate. split; [exact Hi | reflexivity].
Qed.

(* ========================================================================= *)
(** * Further properties *)

(* ------------------------------------------------------------------------- *)
(** ** Varints in sequence *)

(** Non-negative integers written one after the other as varints are read
    back in order, whatever bytes follow them. *)
Theorem varints_read_back (values : list Z) (rest : bytes) :
  Forall (fun v => 0 <= v) values ->
  read_varints (List.length values) (flat_map varint values ++ rest) = values
  /\ (forall v others, values = v :: others ->
        decode_varint (flat_map varint values ++ rest) = Ok v).
Proof.
  intros Hv. split.
  - induction Hv as [|v values Hv0 Hv IH]; [reflexivity|].
    cbn [List.length flat_map read_varints]. rewrite <- app_assoc.
    rewrite decode_varint_loop_varint by exact Hv0. rewrite IH. reflexivity.
  - intros v others ->. inversion Hv as [|x l Hv0 Hl]. subst.
    cbn [flat_map]. rewrite <- app_assoc. unfold decode_varint.
    rewrite decode_varint_loop_varint by exact Hv0. reflexivity.
Qed.

Lemma varints_read_back_witness :
  Forall (fun v => 0 <= v) [840000; 17; 0; 300]
  /\ read_varints 4 (flat_map varint [840000; 17; 0; 300] ++ [Byte.xff]) = [840000; 17; 0; 300].
Proof.
  assert (H : Forall (fun v => 0 <= v) [840000; 17; 0; 300])
    by (repeat constructor; lia).
  split; [exact H|].
  exact (proj1 (varints_read_back [840000; 17; 0; 300] [Byte.xff] H)).
Defined.

(** Two non-negative integers with the same varint are the same integer. *)
Theorem encode_varint_injective (i j : Z) (encoded : bytes) :
  encode_varint i = Ok encoded -> encode_varint j = Ok encoded -> i = j.
Proof.
  intros Hi Hj.
  apply encode_varint_inv in Hi as [Hi ->].
  apply encode_varint_inv in Hj as [Hj He].
  pose proof (decode_varint_loop_varint i [] Hi) as H1.
  pose proof (decode_varint_loop_varint j [] Hj) as H2.
  rewrite He in H1. rewrite H1 in H2. inversion H2. reflexivity.
Qed.

Lemma encode_varint_injective_witness :
  encode_varint 300 = Ok [Byte.xac; Byte.x02] /\ 300 = 300.
Proof.
  split; [reflexivity|].
  apply (encode_varint_injective 300 300 [Byte.xac; Byte.x02]); reflexivity.
Defined.

(** The shape of a varint, by the loop that writes it: every byte but the
    last carries the continuation bit and the last does not; and the
    varint of [i] has at most [k + 1] bytes exactly when [i < 128^(k+1)]. *)
Lemma encode_varint_loop_shape (fuel : nat) :
  forall i,
    0 <= i < 2 ^ (7 + Z.of_nat fuel) ->
    (exists run last,
        encode_varint_loop fuel i [] = run ++ [last]
        /\ forallb continues run = true
        /\ continues last = false)
    /\ (forall k : nat,
           (List.length (encode_varint_loop fuel i []) <= S k)%nat
           <-> i < 128 ^ Z.of_nat (S k)).
Proof.
  assert (Hsmall : forall i, 0 <= i < 128 ->
            continues (byte.of_Z i) = false
            /\ forall k : nat, (1 <= S k)%nat <-> i < 128 ^ Z.of_nat (S k)).
  { intros i Hi. split.
    - unfold continues. rewrite unsigned_of_Z_small by lia.
      rewrite terminal_byte by exact Hi. reflexivity.
    - intros k. split; [|lia]. intros _.
      assert (128 ^ 1 <= 128 ^ Z.of_nat (S k)) by (apply Z.pow_le_mono_r; lia).
      lia. }
  induction fuel as [|fuel IH]; intros i Hi.
  - change (2 ^ (7 + Z.of_nat 0)) with 128 in Hi.
    cbn [encode_varint_loop app bytes1].
    destruct (Hsmall i Hi) as [Hc Hk].
    split; [exists [], (byte.of_Z i); repeat split; exact Hc | exact Hk].
  - cbn [encode_varint_loop].
    destruct (127 <? i) eqn:E.
    + apply Z.ltb_lt in E.
      rewrite encode_varint_loop_app. cbn [app bytes1].
      assert (Hs : 0 <= Z.shiftr i 7 < 2 ^ (7 + Z.of_nat fuel)).
      { assert (H : 0 <= Z.shiftr i 7 < 2 ^ Z.of_nat (S fuel))
          by (apply shiftr7_lt; lia).
        split; [lia|]. eapply Z.lt_le_trans; [apply H|].
        apply Z.pow_le_mono_r; lia. }
      destruct (IH _ Hs) as [[run [last [Hr [Hc Hl]]]] Hlen].
      split.
      * exists (byte.of_Z (Z.lor (Z.land i 0x7F) 0x80) :: run), last.
        rewrite Hr. split; [reflexivity|]. split; [|exact Hl].
        cbn [forallb]. rewrite Hc, andb_true_r.
        destruct (continuation_byte i) as [Hb [_ Hh]].
        unfold continues. rewrite unsigned_of_Z_small by exact Hb.
        rewrite Hh. reflexivity.
      * intros k. cbn [List.length].
        assert (Hdiv : forall m : nat,
                   Z.shiftr i 7 < 128 ^ Z.of_nat m <-> i < 128 ^ Z.of_nat (S m)).
        { intros m. rewrite Z.shiftr_div_pow2 by lia. change (2 ^ 7) with 128.
          rewrite Nat2Z.inj_succ, Z.pow_succ_r by lia.
          assert (0 < 128 ^ Z.of_nat m) by (apply Z.pow_pos_nonneg; lia).
          split; intros H0.
          - pose proof (Z.div_mod i 128 ltac:(lia)).
            pose proof (Z.mod_pos_bound i 128 ltac:(lia)). nia.
          - apply Z.div_lt_upper_bound; lia. }
        destruct k as [|k].
        -- rewrite Hr, length_app. cbn [List.length].
           split; [lia|]. intros H. change (128 ^ Z.of_nat 1) with 128 in H. lia.
        -- rewrite <- Hdiv, <- Hlen. lia.
    + apply Z.ltb_ge in E. cbn [app bytes1].
      destruct (Hsmall i ltac:(lia)) as [Hc Hk].
      split; [exists [], (byte.of_Z i); repeat split; exact Hc | exact Hk].
Qed.

(** What [encode_varint] writes ends with a byte whose continuation bit is
    clear, after bytes that all have it set, and it has at most [k + 1]
    bytes exactly when the integer is below [128^(k+1)]. *)
Theorem varint_shape (i : Z) (encoded : bytes) :
  encode_varint i = Ok encoded ->
  (exists run last,
      encoded = run ++ [last]
      /\ forallb continues run = true
      /\ continues last = false)
  /\ (forall k : nat,
         (List.length encoded <= S k)%nat <-> i < 128 ^ Z.of_nat (S k)).
Proof.
  intros H. apply encode_varint_inv in H as [Hi ->].
  apply encode_varint_loop_shape. apply log2_fuel. exact Hi.
Qed.

(** Below [2^63] a varint takes at most nine bytes. *)
Lemma varint_shape_witness :
  encode_varint (2 ^ 63 - 1) = Ok (repeat Byte.xff 8 ++ [Byte.x7f])
  /\ ((List.length (repeat Byte.xff 8 ++ [Byte.x7f]) <= 9)%nat
      <-> 2 ^ 63 - 1 < 128 ^ Z.of_nat 9).
Proof.
  split; [vm_compute; reflexivity|].
  apply (proj2 (varint_shape (2 ^ 63 - 1) (repeat Byte.xff 8 ++ [Byte.x7f])
                  ltac:(vm_compute; reflexivity)) 8%nat).
Defined.

Lemma lor_below_pow2 (a c n : Z) :
  0 <= a < 2 ^ n -> 0 <= c < 2 ^ n -> 0 <= Z.lor a c < 2 ^ n.
Proof.
  intros [Ha0 Ha] [Hc0 Hc]. split; [apply Z.lor_nonneg; split; assumption|].
  destruct (Z.eq_dec a 0) as [->|Hna]; [rewrite Z.lor_0_l; exact Hc|].
  destruct (Z.eq_dec c 0) as [->|Hnc]; [rewrite Z.lor_0_r; exact Ha|].
  assert (Hn : 0 <= n).
  { destruct (Z_lt_le_dec n 0) as [Hneg|]; [|assumption].
    rewrite Z.pow_neg_r in Ha by exact Hneg. lia. }
  assert (Hl : 0 < Z.lor a c).
  { assert (Z.lor a c <> 0) by (rewrite Z.lor_eq_0_iff; tauto).
    assert (0 <= Z.lor a c) by (apply Z.lor_nonneg; split; assumption). lia. }
  apply Z.log2_lt_pow2; [exact Hl|].
  rewrite Z.log2_lor by assumption.
  apply Z.max_lub_lt; apply Z.log2_lt_pow2; lia.
Qed.

(** What [decode_varint] returns is never negative and stays below
    [128^n] on a stream of [n] bytes. *)
Lemma decode_varint_loop_bound (encoded : bytes) :
  forall decoded shift,
    0 <= shift -> 0 <= decoded < 2 ^ shift ->
    0 <= fst (decode_varint_loop encoded decoded shift)
    < 2 ^ (shift + 7 * len encoded).
Proof.
  induction encoded as [|byte encoded IH]; intros decoded shift Hs Hd.
  - cbn [decode_varint_loop fst]. change (len (@nil Init.Byte.byte)) with 0.
    rewrite Z.mul_0_r, Z.add_0_r. exact Hd.
  - cbn [decode_varint_loop]. rewrite len_cons.
    pose proof (len_nonneg encoded) as Hl.
    assert (Hnew : 0 <= Z.lor decoded
                           (Z.shiftl (Z.land (byte.unsigned byte) 0x7F) shift)
                   < 2 ^ (shift + 7)).
    { apply lor_below_pow2.
      - split; [lia|]. eapply Z.lt_le_trans; [apply Hd|].
        apply Z.pow_le_mono_r; lia.
      - pose proof (low7_range (byte.unsigned byte)) as Hg.
        rewrite Z.shiftl_mul_pow2 by exact Hs.
        rewrite Z.pow_add_r by lia. change (2 ^ 7) with 128.
        assert (0 < 2 ^ shift) by (apply Z.pow_pos_nonneg; lia). nia. }
    destruct (Z.land (byte.unsigned byte) 128 =? 0).
    + cbn [fst]. split; [lia|]. eapply Z.lt_le_trans; [apply Hnew|].
      apply Z.pow_le_mono_r; lia.
    + replace (shift + 7 * (len encoded + 1)) with (shift + 7 + 7 * len encoded) by lia.
      apply IH; [lia | exact Hnew].
Qed.

(** The integer [decode_varint] returns on [n] bytes is at least 0 and
    below [128^n]. *)
Theorem decode_varint_bound (encoded : bytes) (value : Z) :
  decode_varint encoded = Ok value ->
  0 <= value < 128 ^ len encoded.
Proof.
  unfold decode_varint. intros H. inversion H as [Hv].
  pose proof (decode_varint_loop_bound encoded 0 0 ltac:(lia) ltac:(simpl; lia)) as Hb.
  rewrite Z.add_0_l in Hb.
  replace (128 ^ len encoded) with (2 ^ (7 * len encoded)).
  - exact Hb.
  - rewrite Z.pow_mul_r by (try apply len_nonneg; lia). reflexivity.
Qed.

Lemma decode_varint_bound_witness :
  decode_varint [Byte.xff; Byte.xff; Byte.xff] = Ok 2097151
  /\ 0 <= 2097151 < 128 ^ len [Byte.xff; Byte.xff; Byte.xff].
Proof.
  split; [reflexivity|].
  apply (decode_varint_bound [Byte.xff; Byte.xff; Byte.xff] 2097151). reflexivity.
Defined.

(* ------------------------------------------------------------------------- *)
(** ** Names and integers, the other way round *)

Lemma symbol_value_nil : symbol_value [] = 0.
Proof. reflexivity. Qed.

Lemma len_app {A : Type} (l l' : list A) : len (l ++ l') = len l + len l'.
Proof. unfold len. rewrite length_app. lia. Qed.

(** A letter put behind a symbol: the value so far times 26, plus its rank. *)
Lemma symbol_value_snoc (symbol : pystr) (c : Z) :
  symbol_value (symbol ++ [c]) = 26 * symbol_value symbol + (c - ord_A + BASE_OFFSET).
Proof.
  induction symbol as [|x symbol IH].
  - cbn [app]. rewrite symbol_value_cons, symbol_value_nil.
    change (len (@nil Z)) with 0. lia.
  - cbn [app]. rewrite !symbol_value_cons, IH, len_app.
    change (len [c]) with 1.
    rewrite Z.pow_add_r by (try apply len_nonneg; lia). ring.
Qed.

Lemma symbol_value_nonneg (symbol : pystr) :
  Forall letter symbol -> 0 <= symbol_value symbol.
Proof.
  induction symbol as [|c symbol IH] using rev_ind; intros Hl.
  - rewrite symbol_value_nil. lia.
  - apply Forall_app in Hl as [Hs Hc]. inversion Hc as [|x l Hx _]. subst.
    rewrite symbol_value_snoc. specialize (IH Hs).
    unfold letter, ord_A, BASE_OFFSET in *. lia.
Qed.

(** The loop of [int_to_symbol] on the value of a run of letters writes
    that run back. *)
Lemma int_to_symbol_loop_value (symbol : pystr) :
  Forall letter symbol ->
  forall fuel acc,
    symbol_value symbol < 2 ^ Z.of_nat fuel ->
    int_to_symbol_loop fuel (symbol_value symbol) acc = symbol ++ acc.
Proof.
  induction symbol as [|c symbol IH] using rev_ind; intros Hl fuel acc Hf.
  - rewrite symbol_value_nil. destruct fuel; reflexivity.
  - apply Forall_app in Hl as [Hs Hc]. inversion Hc as [|x l Hx _]. subst.
    pose proof (symbol_value_nonneg symbol Hs) as Hv.
    rewrite symbol_value_snoc in *.
    unfold letter, ord_A, BASE_OFFSET in *.
    destruct fuel as [|fuel].
    + change (2 ^ Z.of_nat 0) with 1 in Hf. lia.
    + cbn [int_to_symbol_loop].
      replace (0 <? 26 * symbol_value symbol + (c - 65 + 1)) with true
        by (symmetry; apply Z.ltb_lt; lia).
      unfold BASE_OFFSET.
      replace (26 * symbol_value symbol + (c - 65 + 1) - 1)
        with ((c - 65) + symbol_value symbol * 26) by lia.
      rewrite Z_mod_plus_full, Z_div_plus_full by lia.
      rewrite Z.mod_small, Z.div_small, Z.add_0_l by lia.
      rewrite alphabet_at by lia. unfold ord_A.
      replace (65 + (c - 65)) with c by lia.
      rewrite IH.
      * rewrite <- app_assoc. reflexivity.
      * exact Hs.
      * rewrite Nat2Z.inj_succ, Z.pow_succ_r in Hf by lia. lia.
Qed.

Lemma int_to_symbol_of_value (symbol : pystr) :
  Forall letter symbol -> symbol <> [] ->
  0 < symbol_value symbol
  /\ int_to_symbol (symbol_value symbol) = Ok symbol.
Proof.
  intros Hl Hne.
  assert (Hpos : 0 < symbol_value symbol).
  { destruct symbol as [|c symbol] using rev_ind; [congruence|].
    apply Forall_app in Hl as [Hs Hc]. inversion Hc as [|x l Hx _]. subst.
    pose proof (symbol_value_nonneg symbol Hs).
    rewrite symbol_value_snoc. unfold letter, ord_A, BASE_OFFSET in *. lia. }
  split; [exact Hpos|]. unfold int_to_symbol.
  replace (symbol_value symbol <? 0) with false by (symmetry; apply Z.ltb_ge; lia).
  replace (symbol_value symbol =? 0) with false by (symmetry; apply Z.eqb_neq; lia).
  rewrite !andb_false_r.
  rewrite int_to_symbol_loop_value; [rewrite app_nil_r; reflexivity | exact Hl |].
  apply log2_symbol_fuel. exact Hpos.
Qed.

(** The characters of a name that follows the grammar, spacers taken out,
    are letters, and there is one. *)
Lemma grammar_letters (name : pystr) :
  name_grammar name ->
  Forall letter (filter (fun c => negb (c =? spacer)) name)
  /\ filter (fun c => negb (c =? spacer)) name <> [].
Proof.
  intros [_ [Hall [i [Hi Hl]]]]. split.
  - apply Forall_forall. intros c Hin. apply filter_In in Hin as [Hin Hc].
    apply negb_true_iff, Z.eqb_neq in Hc.
    destruct (In_nth name c 0 Hin) as [n [Hn Hnth]].
    destruct (Hall (Z.of_nat n)) as [H|[H _]].
    + unfold len. lia.
    + unfold getitem in H. rewrite Nat2Z.id, Hnth in H. exact H.
    + unfold getitem in H. rewrite Nat2Z.id, Hnth in H. contradiction.
  - assert (Hin : In (getitem name i) (filter (fun c => negb (c =? spacer)) name)).
    { apply filter_In. split.
      - unfold getitem. apply nth_In. unfold len in Hi. lia.
      - apply negb_true_iff, Z.eqb_neq. unfold letter, spacer in *. lia. }
    intros He. rewrite He in Hin. destruct Hin.
Qed.

Lemma symbol_to_int_then_back (isalpha isupper : Z -> bool) (name : pystr) :
  plain isalpha isupper name ->
  is_valid_glyph_name isalpha isupper name = true ->
  exists n,
    symbol_to_int isalpha isupper name = Ok n
    /\ 1 <= n
    /\ int_to_symbol n = Ok (filter (fun c => negb (c =? spacer)) name).
Proof.
  intros Hp Hv.
  pose proof (proj1 (is_valid_glyph_name_iff isalpha isupper name Hp) Hv) as Hg.
  destruct (grammar_letters name Hg) as [Hl Hne].
  destruct (int_to_symbol_of_value _ Hl Hne) as [Hpos Hback].
  exists (symbol_value (filter (fun c => negb (c =? spacer)) name)).
  unfold symbol_to_int. rewrite Hv. cbn [negb].
  split; [reflexivity|]. split; [lia | exact Hback].
Qed.

(** Every name [is_valid_glyph_name] accepts, its letters being those of
    the alphabet A-Z, is given a positive integer by [symbol_to_int], and
    [int_to_symbol] takes that integer back to the name without its
    spacers. *)
Theorem name_round_trip (isalpha isupper : Z -> bool) (name : pystr) :
  plain isalpha isupper name ->
  is_valid_glyph_name isalpha isupper name = true ->
  exists n,
    symbol_to_int isalpha isupper name = Ok n
    /\ 1 <= n
    /\ int_to_symbol n = Ok (filter (fun c => negb (c =? spacer)) name).
Proof. exact (symbol_to_int_then_back isalpha isupper name). Qed.

Lemma test_coin_plain :
  plain latin1_isalpha latin1_isupper (str "TEST" ++ [spacer] ++ str "COIN").
Proof.
  intros c Hin. cbn in Hin.
  repeat (destruct Hin as [<-|Hin];
          [vm_compute; split; [intros H; try discriminate H; split; discriminate
                              | intros [H1 H2]; try reflexivity;
                                exfalso; apply H1 + apply H2; reflexivity]|]).
  destruct Hin.
Qed.

Lemma name_round_trip_witness :
  exists n,
    symbol_to_int latin1_isalpha latin1_isupper (str "TEST" ++ [spacer] ++ str "COIN")
    = Ok n
    /\ 1 <= n
    /\ int_to_symbol n = Ok (str "TESTCOIN").
Proof.
  apply (name_round_trip latin1_isalpha latin1_isupper
           (str "TEST" ++ [spacer] ++ str "COIN") test_coin_plain).
  vm_compute. reflexivity.
Defined.

(** Above [max_symbol k] a symbol takes more than [k] letters. *)
Lemma int_to_symbol_loop_long (fuel : nat) :
  forall num symbol (k : nat),
    0 <= num < 2 ^ Z.of_nat fuel ->
    max_symbol k < num ->
    len symbol + Z.of_nat k < len (int_to_symbol_loop fuel num symbol).
Proof.
  induction fuel as [|fuel IH]; intros num symbol k Hnum Hk.
  - change (2 ^ Z.of_nat 0) with 1 in Hnum.
    assert (0 <= max_symbol k) by (clear; induction k; cbn [max_symbol]; lia). lia.
  - assert (Hm : 0 <= max_symbol k) by (clear; induction k; cbn [max_symbol]; lia).
    cbn [int_to_symbol_loop].
    replace (0 <? num) with true by (symmetry; apply Z.ltb_lt; lia).
    destruct (divmod_26 num ltac:(lia)) as [Hr [Hq [Hnq Hhalf]]].
    set (q := (num - BASE_OFFSET) / 26) in *.
    set (r := (num - BASE_OFFSET) mod 26) in *.
    clearbody q r.
    assert (Hq2 : 0 <= q < 2 ^ Z.of_nat fuel).
    { split; [exact Hq|]. rewrite Nat2Z.inj_succ, Z.pow_succ_r in Hnum by lia. lia. }
    destruct k as [|k].
    + pose proof (int_to_symbol_loop_spec fuel q (getitem alphabet r :: symbol) Hq2) as Hs.
      assert (Hlen : len (getitem alphabet r :: symbol)
                     <= len (int_to_symbol_loop fuel q (getitem alphabet r :: symbol))).
      { clear - Hq2. revert q Hq2. generalize (getitem alphabet r :: symbol) as acc.
        induction fuel as [|fuel IHf]; intros acc q Hq2; cbn [int_to_symbol_loop]; [lia|].
        destruct (0 <? q) eqn:E; [|lia]. apply Z.ltb_lt in E.
        destruct (divmod_26 q E) as [_ [Hq' [_ Hh]]].
        eapply Z.le_trans; [|apply IHf].
        - rewrite len_cons. lia.
        - split; [exact Hq'|].
          rewrite Nat2Z.inj_succ, Z.pow_succ_r in Hq2 by lia. lia. }
      rewrite len_cons in Hlen. lia.
    + cbn [max_symbol] in Hk.
      assert (Hqk : max_symbol k < q) by lia.
      specialize (IH q (getitem alphabet r :: symbol) k Hq2 Hqk).
      rewrite len_cons in IH. lia.
Qed.

(** The integers a name can carry are those from 1 to
    [26 + 26^2 + ... + 26^26]: [int_to_symbol] followed by [symbol_to_int]
    gives the integer back on exactly these, [int_to_symbol] raising below
    them and [symbol_to_int] above, where the name has more than 26
    letters. *)
Theorem symbol_round_trip_domain (isalpha isupper : Z -> bool) (n : Z) :
  uppercase_latin isalpha isupper ->
  ((exists name,
       int_to_symbol n = Ok name /\ symbol_to_int isalpha isupper name = Ok n)
   <-> 1 <= n <= 6402364363415443603228541259936211926)
  /\ (n <= 0 -> int_to_symbol n = Raise ValueError)
  /\ (6402364363415443603228541259936211926 < n ->
      exists name,
        int_to_symbol n = Ok name
        /\ MAX_GLYPH_NAME_LENGTH < len name
        /\ symbol_to_int isalpha isupper name = Raise ValueError).
Proof.
  intros Hu.
  change 6402364363415443603228541259936211926 with (max_symbol 26).
  assert (Hlow : n <= 0 -> int_to_symbol n = Raise ValueError).
  { intros Hn. unfold int_to_symbol.
    destruct (n <? 0) eqn:E; [reflexivity|].
    apply Z.ltb_ge in E. replace n with 0 by lia. reflexivity. }
  assert (Hhigh : max_symbol 26 < n ->
                  exists name,
                    int_to_symbol n = Ok name
                    /\ MAX_GLYPH_NAME_LENGTH < len name
                    /\ symbol_to_int isalpha isupper name = Raise ValueError).
  { intros Hn.
    assert (Hpos : 0 < n).
    { assert (0 <= max_symbol 26) by (vm_compute; discriminate). lia. }
    exists (int_to_symbol_loop (S (Z.to_nat (Z.log2 n))) n []).
    assert (Hlong : MAX_GLYPH_NAME_LENGTH
                    < len (int_to_symbol_loop (S (Z.to_nat (Z.log2 n))) n [])).
    { pose proof (int_to_symbol_loop_long _ n [] 26%nat
                    (log2_symbol_fuel n Hpos) Hn) as H.
      change (len (@nil Z)) with 0 in H. unfold MAX_GLYPH_NAME_LENGTH. lia. }
    split; [|split; [exact Hlong|]].
    - unfold int_to_symbol.
      replace (n <? 0) with false by (symmetry; apply Z.ltb_ge; lia).
      replace (n =? 0) with false by (symmetry; apply Z.eqb_neq; lia).
      rewrite !andb_false_r. reflexivity.
    - unfold symbol_to_int, is_valid_glyph_name.
      apply Z.ltb_lt in Hlong. rewrite Hlong, orb_true_r. reflexivity. }
  split; [|split; assumption].
  split.
  - intros [name [Hn Hs]].
    destruct (Z_le_gt_dec n 0) as [H0|H0];
      [rewrite (Hlow H0) in Hn; discriminate|].
    destruct (Z_le_gt_dec n (max_symbol 26)) as [H1|H1]; [lia|].
    destruct (Hhigh ltac:(lia)) as [name' [Hn' [_ Hs']]].
    rewrite Hn in Hn'. inversion Hn'. subst name'.
    rewrite Hs in Hs'. discriminate.
  - intros [H1 H26].
    destruct (int_to_symbol_ok n ltac:(lia)) as [name [Hn [Hl [Hv [Hpos Hlen]]]]].
    exists name. split; [exact Hn|].
    rewrite symbol_to_int_letters; [rewrite Hv; reflexivity | exact Hu | exact Hl |].
    split; [exact Hpos | apply (Hlen 26%nat); exact H26].
Qed.

Lemma symbol_round_trip_domain_witness :
  (exists name,
      int_to_symbol 6402364363415443603228541259936211926 = Ok name
      /\ symbol_to_int latin1_isalpha latin1_isupper name
         = Ok 6402364363415443603228541259936211926)
  /\ (exists name,
         int_to_symbol 6402364363415443603228541259936211927 = Ok name
         /\ MAX_GLYPH_NAME_LENGTH < len name
         /\ symbol_to_int latin1_isalpha latin1_isupper name = Raise ValueError).
Proof.
  split.
  - apply (proj1 (symbol_round_trip_domain latin1_isalpha latin1_isupper
                    6402364363415443603228541259936211926 latin1_uppercase)).
    vm_compute. split; discriminate.
  - apply (proj2 (proj2 (symbol_round_trip_domain latin1_isalpha latin1_isupper
                           6402364363415443603228541259936211927 latin1_uppercase))).
    vm_compute. reflexivity.
Defined.

(** On a name whose uppercase letters, as [isalpha] and [isupper] see
    them, are those of the alphabet A-Z, [is_valid_glyph_name] returns
    [True] exactly when the name has 1 to 26 characters, each a letter A-Z
    or a spacer that is not first, not last and not next to another
    spacer, with a letter among them. *)
Theorem glyph_name_grammar (isalpha isupper : Z -> bool) (name : pystr) :
  plain isalpha isupper name ->
  is_valid_glyph_name isalpha isupper name = true <-> name_grammar name.
Proof. exact (is_valid_glyph_name_iff isalpha isupper name). Qed.

(** [TEST•COIN] follows the grammar and is accepted. *)
Lemma glyph_name_grammar_witness :
  is_valid_glyph_name latin1_isalpha latin1_isupper
    (str "TEST" ++ [spacer] ++ str "COIN") = true
  /\ name_grammar (str "TEST" ++ [spacer] ++ str "COIN").
Proof.
  assert (H : is_valid_glyph_name latin1_isalpha latin1_isupper
                (str "TEST" ++ [spacer] ++ str "COIN") = true)
    by (vm_compute; reflexivity).
  split; [exact H|].
  exact (proj1 (glyph_name_grammar latin1_isalpha latin1_isupper
                  (str "TEST" ++ [spacer] ++ str "COIN") test_coin_plain) H).
Defined.

(* ------------------------------------------------------------------------- *)
(** ** Payloads *)

Lemma add_tagged_inv (tag : string) (field : option Z) (glyphstone_data out : bytes) :
  add_tagged tag field glyphstone_data = Ok out ->
  encodable field /\ out = glyphstone_data ++ tagged_field tag field.
Proof.
  unfold add_tagged, tagged_field, nonzero, encodable.
  destruct field as [v|].
  - destruct (v =? 0) eqn:E.
    + apply Z.eqb_eq in E. intros H. inversion H. rewrite app_nil_r. split; [lia | reflexivity].
    + intros H. bind_inv H as e He. apply encode_varint_inv in He as [Hv ->].
      inversion H. split; [exact Hv | reflexivity].
  - intros H. inversion H. rewrite app_nil_r. split; [exact I | reflexivity].
Qed.

Lemma add_optional_mint_params_inv (glyphstone_data : bytes) (symbol : pystr)
      (premine : Z)
      (mint_cap mint_amount start_height end_height start_offset end_offset : option Z)
      (out : bytes) :
  _add_optional_mint_params glyphstone_data symbol premine mint_cap mint_amount
    start_height end_height start_offset end_offset = Ok out ->
  exists symbol_utf8,
    encode_utf8 symbol = Ok symbol_utf8
    /\ 0 <= premine
    /\ encodable mint_cap /\ encodable mint_amount
    /\ encodable start_height /\ encodable end_height
    /\ encodable start_offset /\ encodable end_offset.
Proof.
  unfold _add_optional_mint_params. intros H.
  bind_inv H as d1 H1. bind_inv H as d2 H2.
  bind_inv H as d3 H3. bind_inv H as d4 H4. bind_inv H as d5 H5.
  bind_inv H as d6 H6. bind_inv H as d7 H7. bind_inv H as d8 H8.
  apply add_tagged_inv in H3 as [H3 _]. apply add_tagged_inv in H4 as [H4 _].
  apply add_tagged_inv in H5 as [H5 _]. apply add_tagged_inv in H6 as [H6 _].
  apply add_tagged_inv in H7 as [H7 _]. apply add_tagged_inv in H8 as [H8 _].
  assert (Hs : exists symbol_utf8, encode_utf8 symbol = Ok symbol_utf8).
  { destruct symbol as [|c symbol]; [exists []; reflexivity|].
    bind_inv H1 as u Hu. exists u. exact Hu. }
  destruct Hs as [u Hu]. exists u. split; [exact Hu|].
  split; [|repeat split; assumption].
  destruct (premine =? 0) eqn:E; [apply Z.eqb_eq in E; lia|].
  bind_inv H2 as e He. apply encode_varint_inv in He as [Hp _]. exact Hp.
Qed.

(** When [etch_glyphstone_data] returns and what: the name must be valid
    with a non-negative integer, the divisibility, the premine and every
    field given must be non-negative and the symbol must have a UTF-8
    encoding; the payload is then [E], the name integer, the divisibility,
    the symbol, the premine unless zero and the tagged fields unless zero,
    and its first two varints read back as the name integer and the
    divisibility. *)
Theorem etch_glyphstone_data_iff (isalpha isupper : Z -> bool) (name : pystr)
        (divisibility : Z) (symbol : pystr) (premine : Z)
        (mint_cap mint_amount start_height end_height start_offset end_offset : option Z)
        (payload : bytes) :
  PythonGlyphs.etch_glyphstone_data isalpha isupper name divisibility symbol premine
    mint_cap mint_amount start_height end_height start_offset end_offset = Ok payload
  <-> exists name_int symbol_utf8,
      symbol_to_int isalpha isupper name = Ok name_int
      /\ 0 <= name_int /\ 0 <= divisibility /\ 0 <= premine
      /\ encode_utf8 symbol = Ok symbol_utf8
      /\ encodable mint_cap /\ encodable mint_amount
      /\ encodable start_height /\ encodable end_height
      /\ encodable start_offset /\ encodable end_offset
      /\ payload = b "E" ++ varint name_int ++ varint divisibility
                     ++ symbol_utf8
                     ++ (if premine =? 0 then [] else varint premine)
                     ++ tagged_field "C" mint_cap
                     ++ tagged_field "A" mint_amount
                     ++ tagged_field "S" start_height
                     ++ tagged_field "H" end_height
                     ++ tagged_field "O" start_offset
                     ++ tagged_field "F" end_offset
      /\ read_varints 2 (tl payload) = [name_int; divisibility].
Proof.
  unfold PythonGlyphs.etch_glyphstone_data. split.
  - intros H. bind_inv H as name_int Hn. bind_inv H as e1 H1. bind_inv H as e2 H2.
    apply encode_varint_inv in H1 as [Hn0 ->].
    apply encode_varint_inv in H2 as [Hd0 ->].
    destruct (add_optional_mint_params_inv _ _ _ _ _ _ _ _ _ _ H)
      as [u [Hu [Hp [Hc [Ha [Hs [Hh [Ho Hf]]]]]]]].
    rewrite (add_optional_mint_params_ok _ _ _ _ _ _ _ _ _ u) in H by assumption.
    inversion H as [Hpay]. exists name_int, u.
    repeat (split; [assumption|]).
    split.
    + rewrite <- !app_assoc. reflexivity.
    + change (b "E") with [Byte.x45].
      rewrite <- !app_assoc. cbn [app tl read_varints].
      rewrite decode_varint_loop_varint by exact Hn0.
      rewrite decode_varint_loop_varint by exact Hd0. reflexivity.
  - intros [name_int [u [Hn [Hn0 [Hd0 [Hp [Hu [Hc [Ha [Hs [Hh [Ho [Hf [Hpay _]]]]]]]]]]]]]].
    rewrite Hn. cbn [bind].
    rewrite (encode_varint_ok name_int Hn0), (encode_varint_ok divisibility Hd0).
    cbn [bind].
    rewrite (add_optional_mint_params_ok _ _ _ _ _ _ _ _ _ u) by assumption.
    rewrite Hpay, <- !app_assoc. reflexivity.
Qed.

Lemma etch_glyphstone_data_iff_witness :
  exists payload,
    PythonGlyphs.etch_glyphstone_data latin1_isalpha latin1_isupper
      (str "AA") 8 [0xA4] 5 (Some 1000) None None None None (Some 0) = Ok payload
    /\ read_varints 2 (tl payload) = [27; 8].
Proof.
  eexists.
  assert (H : PythonGlyphs.etch_glyphstone_data latin1_isalpha latin1_isupper
                (str "AA") 8 [0xA4] 5 (Some 1000) None None None None (Some 0)
              = Ok (b "E" ++ varint 27 ++ varint 8 ++ [Byte.xc2; Byte.xa4]
                      ++ varint 5 ++ b "C" ++ varint 1000))
    by (vm_compute; reflexivity).
  split; [exact H|].
  destruct (proj1 (etch_glyphstone_data_iff _ _ _ _ _ _ _ _ _ _ _ _ _) H)
    as [n [u [Hn [_ [_ [_ [_ [_ [_ [_ [_ [_ [_ [_ Hr]]]]]]]]]]]]]].
  assert (n = 27) by (vm_compute in Hn; congruence). subst n. exact Hr.
Defined.

(** A symbol of one ASCII character and a premine of the same number give
    the same payload: the byte after the divisibility does not tell which
    of the two was etched. *)
Theorem etch_symbol_or_premine (isalpha isupper : Z -> bool) (name : pystr)
        (divisibility c : Z)
        (mint_cap mint_amount start_height end_height start_offset end_offset : option Z) :
  0 < c < 128 ->
  PythonGlyphs.etch_glyphstone_data isalpha isupper name divisibility [c] 0
    mint_cap mint_amount start_height end_height start_offset end_offset
  = PythonGlyphs.etch_glyphstone_data isalpha isupper name divisibility [] c
      mint_cap mint_amount start_height end_height start_offset end_offset.
Proof.
  intros Hc. unfold PythonGlyphs.etch_glyphstone_data.
  destruct (symbol_to_int isalpha isupper name) as [n|e]; [|reflexivity].
  cbn [bind].
  destruct (encode_varint n) as [e1|e]; [|reflexivity]. cbn [bind].
  destruct (encode_varint divisibility) as [e2|e]; [|reflexivity]. cbn [bind].
  unfold _add_optional_mint_params.
  assert (Hu : encode_utf8 [c] = Ok (bytes1 c)).
  { cbn [encode_utf8]. unfold utf8_char.
    replace ((c <? 0) || (1114112 <=? c)) with false
      by (symmetry; apply orb_false_iff; split;
          [apply Z.ltb_ge | apply Z.leb_gt]; lia).
    replace (c <? 128) with true by (symmetry; apply Z.ltb_lt; lia).
    cbn [bind]. rewrite app_nil_r. reflexivity. }
  assert (Hv : encode_varint c = Ok (bytes1 c)).
  { rewrite encode_varint_ok by lia. rewrite varint_unfold by lia.
    replace (127 <? c) with false by (symmetry; apply Z.ltb_ge; lia).
    reflexivity. }
  rewrite Hu, Hv.
  replace (c =? 0) with false by (symmetry; apply Z.eqb_neq; lia).
  reflexivity.
Qed.

(** The symbol [C] with no premine, and a premine of 67 with no symbol. *)
Lemma etch_symbol_or_premine_witness :
  PythonGlyphs.etch_glyphstone_data latin1_isalpha latin1_isupper (str "AA") 8
    (str "C") 0 None None None None None None
  = PythonGlyphs.etch_glyphstone_data latin1_isalpha latin1_isupper (str "AA") 8
      [] 67 None None None None None None.
Proof.
  apply (etch_symbol_or_premine latin1_isalpha latin1_isupper (str "AA") 8 67). lia.
Defined.

(** [mint_glyphstone_data] returns exactly when the block height, the
    transaction index and the amount are not negative; the payload is [M]
    followed by their varints, which read back as the three numbers. *)
Theorem mint_glyphstone_data_iff (block_height tx_index amount : Z) (payload : bytes) :
  PythonGlyphs.mint_glyphstone_data block_height tx_index amount = Ok payload
  <-> 0 <= block_height /\ 0 <= tx_index /\ 0 <= amount
      /\ payload = b "M" ++ varint block_height ++ varint tx_index ++ varint amount
      /\ read_varints 3 (tl payload) = [block_height; tx_index; amount].
Proof.
  unfold PythonGlyphs.mint_glyphstone_data. split.
  - intros H. bind_inv H as e1 H1. bind_inv H as e2 H2. bind_inv H as e3 H3.
    apply encode_varint_inv in H1 as [Hh ->].
    apply encode_varint_inv in H2 as [Hi ->].
    apply encode_varint_inv in H3 as [Ha ->].
    inversion H as [Hp]. repeat (split; [assumption || reflexivity|]).
    change (b "M") with [Byte.x4d]. cbn [app tl read_varints].
    rewrite decode_varint_loop_varint by exact Hh.
    rewrite decode_varint_loop_varint by exact Hi.
    rewrite <- (app_nil_r (varint amount)).
    rewrite decode_varint_loop_varint by exact Ha. reflexivity.
  - intros [Hh [Hi [Ha [-> _]]]].
    rewrite (encode_varint_ok _ Hh), (encode_varint_ok _ Hi), (encode_varint_ok _ Ha).
    reflexivity.
Qed.

Lemma mint_glyphstone_data_iff_witness :
  (0 <= 840000 /\ 0 <= 17 /\ 0 <= 10)
  /\ PythonGlyphs.mint_glyphstone_data 840000 17 10
     = Ok (b "M" ++ varint 840000 ++ varint 17 ++ varint 10).
Proof.
  split; [lia|].
  apply (proj2 (mint_glyphstone_data_iff 840000 17 10
                  (b "M" ++ varint 840000 ++ varint 17 ++ varint 10))).
  repeat split; try lia; try (vm_compute; reflexivity).
Defined.

(* ------------------------------------------------------------------------- *)
(** ** The cenotaph test *)

(** [is_cenotaph] lets an output pass exactly when its script starts with
    [OP_RETURN OP_13]; every output [create_glyphstone_output] makes does,
    whatever the payload. *)
Theorem is_cenotaph_iff :
  (forall out,
      is_cenotaph out = false
      <-> exists rest, scriptPubKey out = OP_RETURN :: OP_13 :: rest)
  /\ (forall glyphstone_data,
         is_cenotaph (create_glyphstone_output glyphstone_data) = false).
Proof.
  split; [|exact glyphstone_output_not_cenotaph].
  intros [value script]. unfold is_cenotaph, script_at. cbn [scriptPubKey].
  destruct script as [|a [|c rest]].
  - cbn. split; [discriminate | intros [rest H]; discriminate].
  - split.
    + intros H. change (len [a] <? 2) with true in H. discriminate.
    + intros [rest H]. discriminate.
  - replace (len (a :: c :: rest) <? 2) with false
      by (symmetry; apply Z.ltb_ge; rewrite !len_cons; pose proof (len_nonneg rest); lia).
    cbn [nth orb]. rewrite orb_false_iff, !negb_false_iff. split.
    + intros [Ha Hc]. apply Byte.byte_dec_bl in Ha, Hc. subst. exists rest. reflexivity.
    + intros [rest' H]. inversion H. split; reflexivity.
Qed.

(* ------------------------------------------------------------------------- *)
(** ** Funding and change *)

Lemma find_first {A : Type} (f : A -> bool) (l : list A) (x : A) :
  find f l = Some x
  <-> exists before after,
      l = before ++ x :: after /\ f x = true /\ forallb (fun y => negb (f y)) before = true.
Proof.
  induction l as [|a l IH]; cbn [find].
  - split; [discriminate|]. intros [[|y before] [after [H _]]]; discriminate.
  - destruct (f a) eqn:E.
    + split.
      * intros H. inversion H. subst. exists [], l. repeat split. exact E.
      * intros [[|y before] [after [H [Hx Hb]]]].
        -- inversion H. reflexivity.
        -- inversion H. subst. cbn [forallb] in Hb. rewrite E in Hb. discriminate.
    + rewrite IH. split.
      * intros [before [after [H [Hx Hb]]]]. exists (a :: before), after.
        subst. repeat split; [exact Hx|]. cbn [forallb]. rewrite E, Hb. reflexivity.
      * intros [[|y before] [after [H [Hx Hb]]]].
        -- inversion H. subst. congruence.
        -- inversion H. subst. cbn [forallb] in Hb.
           apply andb_true_iff in Hb as [_ Hb]. exists before, after. repeat split; assumption.
Qed.

(** [select_utxo] returns the first wallet output that holds the amount
    needed, provided its address is one [CCoinAddress] accepts; it raises
    [ValueError] when the node fails and when no output holds the amount. *)
Theorem select_utxo_first_fit (nd : node) (amount_needed : Z) :
  (forall u,
      select_utxo nd amount_needed = Ok u
      <-> exists before after script,
          listunspent nd = Ok (before ++ u :: after)
          /\ Forall (fun v => utxo_amount v < amount_needed) before
          /\ amount_needed <= utxo_amount u
          /\ CCoinAddress nd (utxo_address u) = Ok script)
  /\ ((forall l, listunspent nd = Ok l ->
                 Forall (fun v => utxo_amount v < amount_needed) l) ->
      select_utxo nd amount_needed = Raise ValueError).
Proof.
  unfold select_utxo. split.
  - intros u. destruct (listunspent nd) as [l|e].
    + destruct (find (fun u0 => amount_needed <=? utxo_amount u0) l) as [w|] eqn:E.
      * apply find_first in E as [before [after [Hl [Hw Hb]]]].
        apply Z.leb_le in Hw.
        assert (Hbefore : Forall (fun v => utxo_amount v < amount_needed) before).
        { apply Forall_forall. intros v Hin.
          rewrite forallb_forall in Hb. specialize (Hb v Hin).
          apply negb_true_iff, Z.leb_gt in Hb. exact Hb. }
        split.
        -- intros H. bind_inv H as script Hs. inversion H. subst.
           exists before, after, script. repeat split; assumption.
        -- intros [before' [after' [script [Hl' [Hb' [Hu Hs]]]]]].
           inversion Hl' as [Heq]. rewrite Hl in Heq.
           assert (Hsame : before = before' /\ w = u).
           { clear - Heq Hbefore Hb' Hw Hu.
             revert before' Heq Hb'. induction before as [|x before IHb];
               intros [|y before'] Heq Hb'.
             - inversion Heq. split; reflexivity.
             - inversion Heq. subst. inversion Hb'. subst. lia.
             - inversion Heq. subst. inversion Hbefore. subst. lia.
             - inversion Heq. subst. inversion Hbefore. inversion Hb'. subst.
               destruct (IHb ltac:(assumption) before' ltac:(assumption) ltac:(assumption))
                 as [-> ->].
               split; reflexivity. }
           destruct Hsame as [_ ->]. rewrite Hs. reflexivity.
      * split; [discriminate|].
        intros [before [after [script [Hl [_ [Hu _]]]]]]. inversion Hl. subst.
        pose proof (find_none _ _ E u ltac:(apply in_or_app; right; left; reflexivity)) as Hn.
        apply Z.leb_gt in Hn. lia.
    + split; [discriminate|]. intros [before [after [script [Hl _]]]]. discriminate.
  - intros Hall. destruct (listunspent nd) as [l|e]; [|reflexivity].
    specialize (Hall l eq_refl).
    destruct (find (fun u0 => amount_needed <=? utxo_amount u0) l) as [w|] eqn:E;
      [|reflexivity].
    apply find_some in E as [Hin Hw]. apply Z.leb_le in Hw.
    rewrite Forall_forall in Hall. specialize (Hall w Hin). lia.
Qed.

Lemma select_utxo_first_fit_witness :
  select_utxo example_node 10000
  = Ok (mkUtxo (repeat Byte.x01 32) 0 100000 test_address)
  /\ select_utxo example_node 100001 = Raise ValueError.
Proof.
  split.
  - apply (proj1 (select_utxo_first_fit example_node 10000)).
    exists [], [], test_script.
    split; [reflexivity|]. split; [constructor|]. split; [vm_compute; congruence|].
    reflexivity.
  - apply (proj2 (select_utxo_first_fit example_node 100001)).
    intros l Hl. inversion Hl. repeat constructor.
Defined.

(** What [_construct_and_broadcast_transaction] returns beside the
    transaction: the txid the node gave when [live], [None] otherwise. *)
Lemma construct_and_broadcast_returned (nd : node) (glyphstone_output : CTxOut)
      (destination_output : option CTxOut) (change_address : option string)
      (fee_per_byte : Z) (live : bool) (input_txin : option CTxIn)
      (tx : CTransaction) (r : option string) :
  PythonGlyphs._construct_and_broadcast_transaction nd glyphstone_output
    destination_output change_address fee_per_byte live input_txin = Ok (tx, r) ->
  if live
  then exists txid,
      signrawtransactionwithwallet_sendrawtransaction nd tx = Ok txid /\ r = Some txid
  else r = None.
Proof.
  unfold PythonGlyphs._construct_and_broadcast_transaction. intros H.
  bind_inv H as tx0 Htx. destruct live.
  - destruct (signrawtransactionwithwallet_sendrawtransaction nd tx0) as [txid|e] eqn:E;
      [|discriminate].
    inversion H. subst. exists txid. split; [exact E | reflexivity].
  - inversion H. reflexivity.
Qed.

Lemma COutPoint_inv (hash : bytes) (n : Z) (txin : CTxIn) :
  COutPoint hash n = Ok txin ->
  len hash = 32 /\ 0 <= n <= 0xffffffff /\ txin = mkCTxIn hash n.
Proof.
  unfold COutPoint.
  destruct (len hash =? 32) eqn:E1; cbn [negb]; [|discriminate].
  destruct ((0 <=? n) && (n <=? 0xffffffff)) eqn:E2; cbn [negb]; [|discriminate].
  intros H. inversion H. apply Z.eqb_eq in E1. apply andb_true_iff in E2 as [E2 E3].
  apply Z.leb_le in E2, E3. repeat split; assumption.
Qed.

(** The builder of [pythonGlyphs.py] never pays change.  A transaction it
    returns has one input, the one given or else the first wallet output of
    at least 10000 satoshi, and exactly the outputs it was handed: the
    glyphstone output, which is no cenotaph, and the destination output if
    there is one.  Where a change address was given, the change was not
    positive.  With an input given whose value leaves a positive change
    after the destination value and the fee (size in bytes times the fee
    rate), and a change address, the call raises. *)
Theorem builder_adds_no_output (nd : node) (glyphstone_output : CTxOut)
        (destination_output : option CTxOut) (fee_per_byte : Z) (live : bool) :
  let destination_value :=
    match destination_output with Some d => nValue d | None => 0 end in
  let outputs :=
    glyphstone_output :: match destination_output with Some d => [d] | None => [] end in
  (forall change_address input_txin tx r,
      PythonGlyphs._construct_and_broadcast_transaction nd glyphstone_output
        destination_output change_address fee_per_byte live input_txin = Ok (tx, r) ->
      let fee := serialize_len nd tx * fee_per_byte in
      is_cenotaph glyphstone_output = false
      /\ vout tx = outputs
      /\ (exists txin,
             vin tx = [txin]
             /\ match input_txin with
                | Some given =>
                    txin = given
                    /\ exists v,
                        get_input_amount nd given = Ok v
                        /\ (nonempty change_address = true ->
                            v - destination_value - fee <= 0)
                | None =>
                    exists u,
                      select_utxo nd 10000 = Ok u
                      /\ COutPoint (utxo_txid u) (utxo_vout u) = Ok txin
                      /\ (nonempty change_address = true ->
                          wallet_change_positive nd u destination_value fee = Ok false)
                end)
      /\ (if live
          then exists txid,
              signrawtransactionwithwallet_sendrawtransaction nd tx = Ok txid
              /\ r = Some txid
          else r = None))
  /\ (forall change_address given v,
         get_input_amount nd given = Ok v ->
         nonempty change_address = true ->
         0 < v - destination_value
             - serialize_len nd (mkCTransaction [given] outputs) * fee_per_byte ->
         exists e,
           PythonGlyphs._construct_and_broadcast_transaction nd glyphstone_output
             destination_output change_address fee_per_byte live (Some given)
           = Raise e).
Proof.
  cbv zeta. split.
  - intros change_address input_txin tx r H.
    pose proof (construct_and_broadcast_returned _ _ _ _ _ _ _ _ _ H) as Hr.
    apply construct_and_broadcast_inv in H.
    apply construct_transaction_ok in H. cbv zeta in H.
    destruct H as [Hc [_ [Hv Hin]]].
    split; [exact Hc|]. split; [exact Hv|]. split; [exact Hin | exact Hr].
  - intros change_address given v Hv Hca Hpos.
    apply not_ok_raises. intros [tx r] H.
    apply construct_and_broadcast_inv in H.
    apply construct_transaction_ok in H. cbv zeta in H.
    destruct H as [_ [_ [Hout [txin [Hvin [-> [v' [Hv' Hle]]]]]]]].
    rewrite Hv in Hv'. injection Hv' as <-. specialize (Hle Hca).
    destruct tx as [vi vo]. cbn [vin vout] in Hvin, Hout. subst vi vo. lia.
Qed.

(** The wallet of [example_node] funds a glyphstone output and a
    destination output of 500: the transaction holds these two outputs. *)
Lemma builder_adds_no_output_witness :
  PythonGlyphs._construct_and_broadcast_transaction example_node
    (create_glyphstone_output []) (Some (mkCTxOut 500 test_script)) None 1 false None
  = Ok (mkCTransaction [mkCTxIn (repeat Byte.x01 32) 0]
          [create_glyphstone_output []; mkCTxOut 500 test_script],
        None)
  /\ vout (mkCTransaction [mkCTxIn (repeat Byte.x01 32) 0]
             [create_glyphstone_output []; mkCTxOut 500 test_script])
     = [create_glyphstone_output []; mkCTxOut 500 test_script].
Proof.
  split; [vm_compute; reflexivity|].
  apply (proj1 (builder_adds_no_output example_node (create_glyphstone_output [])
                  (Some (mkCTxOut 500 test_script)) 1 false)
               None None _ None).
  vm_compute. reflexivity.
Defined.

(* ------------------------------------------------------------------------- *)
(** ** Etch, mint and transfer as a whole *)

(** A call of [etch_glyph] that returns has built the glyphstone output of
    the etch payload and, when the premine is positive, one output of
    [premine * 10^divisibility] to the destination address, which must have
    been given, and nothing else: no change output, and no nostr key was
    passed with a premine.  With no premine the glyphstone output is the
    only one.  A positive premine without a destination address raises
    [ValueError]. *)
Theorem etch_glyph_outputs (isalpha isupper : Z -> bool) (nd : node) (name : pystr)
        (divisibility : Z) (symbol : pystr) (premine : Z)
        (mint_cap mint_amount start_height end_height start_offset end_offset : option Z)
        (destination_address change_address : option string)
        (fee_per_byte : Z) (live : bool) (nostr_pubkey : option string) :
  (forall tx r,
      PythonGlyphs.etch_glyph isalpha isupper nd name divisibility symbol premine
        mint_cap mint_amount start_height end_height start_offset end_offset
        destination_address change_address fee_per_byte live nostr_pubkey = Ok (tx, r) ->
      exists payload,
        PythonGlyphs.etch_glyphstone_data isalpha isupper name divisibility symbol
          premine mint_cap mint_amount start_height end_height start_offset end_offset
        = Ok payload
        /\ 0 <= premine /\ 0 <= divisibility
        /\ (premine = 0 -> vout tx = [create_glyphstone_output payload])
        /\ (0 < premine ->
            exists address script,
              destination_address = Some address
              /\ nonempty nostr_pubkey = false
              /\ CCoinAddress nd address = Ok script
              /\ vout tx = [create_glyphstone_output payload;
                            mkCTxOut (premine * 10 ^ divisibility) script]))
  /\ (forall payload,
         PythonGlyphs.etch_glyphstone_data isalpha isupper name divisibility symbol
           premine mint_cap mint_amount start_height end_height start_offset end_offset
         = Ok payload ->
         0 < premine ->
         nonempty destination_address = false ->
         PythonGlyphs.etch_glyph isalpha isupper nd name divisibility symbol premine
           mint_cap mint_amount start_height end_height start_offset end_offset
           destination_address change_address fee_per_byte live nostr_pubkey
         = Raise ValueError).
Proof.
  split.
  - intros tx r H. unfold PythonGlyphs.etch_glyph in H.
    bind_inv H as payload Hp. bind_inv H as dest Hd.
    apply construct_and_broadcast_inv in H.
    apply construct_transaction_ok in H. destruct H as [_ [_ [Hv _]]].
    exists payload. split; [exact Hp|].
    assert (Hnn : 0 <= premine /\ 0 <= divisibility).
    { unfold PythonGlyphs.etch_glyphstone_data in Hp.
      bind_inv Hp as n Hn. bind_inv Hp as e1 H1. bind_inv Hp as e2 H2.
      apply encode_varint_inv in H2 as [Hdiv _].
      apply add_optional_mint_params_inv in Hp as [u [_ [Hpre _]]].
      split; assumption. }
    destruct Hnn as [Hpre Hdiv]. split; [exact Hpre|]. split; [exact Hdiv|].
    unfold PythonGlyphs._create_glyph_output in Hd. split.
    + intros H0. subst premine. cbn in Hd. inversion Hd. subst dest. exact Hv.
    + intros Hpos.
      replace (0 <? premine) with true in Hd by (symmetry; apply Z.ltb_lt; exact Hpos).
      destruct destination_address as [address|]; [|discriminate].
      destruct (String.eqb address ""); [discriminate|].
      bind_inv Hd as script Hs. bind_inv Hd as value Hval.
      unfold atomic_units in Hval.
      replace (0 <=? divisibility) with true in Hval
        by (symmetry; apply Z.leb_le; exact Hdiv).
      inversion Hval. inversion Hd. subst dest value.
      apply destination_script_inv in Hs as [Hk Hs].
      exists address, script. repeat split; assumption.
  - intros payload Hp Hpos Hdest. unfold PythonGlyphs.etch_glyph.
    rewrite Hp. cbn [bind]. unfold PythonGlyphs._create_glyph_output.
    replace (0 <? premine) with true by (symmetry; apply Z.ltb_lt; exact Hpos).
    destruct destination_address as [address|]; [|reflexivity].
    cbn [nonempty] in Hdest. apply negb_false_iff in Hdest. rewrite Hdest. reflexivity.
Qed.

(** Etching [AA] with divisibility 2, the symbol U+00A4, a premine of 5 to
    [test_address] and a cap of 1000, with no change address. *)
Lemma etch_glyph_outputs_witness :
  exists tx payload,
    PythonGlyphs.etch_glyph latin1_isalpha latin1_isupper example_node
      (str "AA") 2 [0xA4] 5 (Some 1000) None None None None None
      (Some test_address) None 1 false None = Ok (tx, None)
    /\ vout tx = [create_glyphstone_output payload; mkCTxOut (5 * 10 ^ 2) test_script].
Proof.
  exists (mkCTransaction [mkCTxIn (repeat Byte.x01 32) 0]
            [create_glyphstone_output
               (b "E" ++ varint 27 ++ varint 2 ++ [Byte.xc2; Byte.xa4] ++ varint 5
                  ++ b "C" ++ varint 1000);
             mkCTxOut 500 test_script]).
  destruct (proj1 (etch_glyph_outputs latin1_isalpha latin1_isupper example_node
                     (str "AA") 2 [0xA4] 5 (Some 1000) None None None None None
                     (Some test_address) None 1 false None)
                  _ None ltac:(vm_compute; reflexivity))
    as [payload [Hp [_ [_ [_ Hpos]]]]].
  destruct (Hpos ltac:(lia)) as [address [script [Ha [_ [Hs Hv]]]]].
  inversion Ha. subst address. vm_compute in Hs. inversion Hs. subst script.
  exists payload. split; [vm_compute; reflexivity | exact Hv].
Defined.

(** Taking what [get_glyph_info] returns as given: a call of [mint_glyph]
    that returns has kept the terms of the mint.  At the node's block count
    the mint was open, the glyph has a [mint_amount] entry, and the amount
    equals it unless it is 0; no nostr key was passed; the outputs are the
    glyphstone output of the mint payload and the destination output, of
    [amount * 10^divisibility] when the divisibility is not negative, and
    nothing else.  When the mint is closed the call raises [ValueError];
    when it is open and the glyph has no [mint_amount] entry it raises
    [KeyError]. *)
Theorem mint_glyph_terms (nd : node) (glyph_id : string) (amount : Z)
        (destination_address : string) (change_address : option string)
        (fee_per_byte : Z) (live : bool) (nostr_pubkey : option string) :
  (forall tx r,
      PythonGlyphs.mint_glyph nd glyph_id amount destination_address change_address
        fee_per_byte live nostr_pubkey = Ok (tx, r) ->
      exists info fixed d block_height tx_index payload value script,
        get_glyph_info nd glyph_id = Ok info
        /\ PythonGlyphs.is_mint_open info (getblockcount nd) = Ok true
        /\ mint_amount info = Some fixed
        /\ (fixed = 0 \/ amount = fixed)
        /\ divisibility info = Some d
        /\ parse_glyph_id nd glyph_id = Ok (block_height, tx_index)
        /\ PythonGlyphs.mint_glyphstone_data block_height tx_index amount = Ok payload
        /\ atomic_units nd amount d = Ok value
        /\ (0 <= d -> value = amount * 10 ^ d)
        /\ nonempty nostr_pubkey = false
        /\ CCoinAddress nd destination_address = Ok script
        /\ vout tx = [create_glyphstone_output payload; mkCTxOut value script])
  /\ (forall info,
         get_glyph_info nd glyph_id = Ok info ->
         PythonGlyphs.is_mint_open info (getblockcount nd) = Ok false ->
         PythonGlyphs.mint_glyph nd glyph_id amount destination_address
           change_address fee_per_byte live nostr_pubkey = Raise ValueError)
  /\ (forall info,
         get_glyph_info nd glyph_id = Ok info ->
         PythonGlyphs.is_mint_open info (getblockcount nd) = Ok true ->
         mint_amount info = None ->
         PythonGlyphs.mint_glyph nd glyph_id amount destination_address
           change_address fee_per_byte live nostr_pubkey = Raise KeyError).
Proof.
  split; [|split].
  - intros tx r H. unfold PythonGlyphs.mint_glyph in H.
    bind_inv H as info Hinfo. bind_inv H as open Hopen.
    destruct open; [|discriminate]. cbn [negb] in H.
    bind_inv H as fixed Hfixed.
    destruct (negb (fixed =? 0) && negb (amount =? fixed)) eqn:Ef; [discriminate|].
    bind_inv H as id Hid. destruct id as [bh ti]. cbv beta iota in H.
    bind_inv H as payload Hp. bind_inv H as d Hd. bind_inv H as value Hval.
    bind_inv H as script Hs.
    apply construct_and_broadcast_inv in H.
    apply construct_transaction_ok in H. destruct H as [_ [_ [Hv _]]].
    apply destination_script_inv in Hs as [Hk Hs].
    exists info, fixed, d, bh, ti, payload, value, script.
    unfold subscript in Hfixed, Hd.
    destruct (mint_amount info) as [m|]; [|discriminate].
    destruct (divisibility info) as [dv|]; [|discriminate].
    inversion Hfixed. inversion Hd. subst.
    split; [exact Hinfo|]. split; [exact Hopen|]. split; [reflexivity|].
    split.
    { apply andb_false_iff in Ef as [E|E]; apply negb_false_iff, Z.eqb_eq in E;
        [left | right]; exact E. }
    split; [reflexivity|]. split; [exact Hid|]. split; [exact Hp|].
    split; [exact Hval|].
    split.
    { intros H0. unfold atomic_units in Hval. apply Z.leb_le in H0.
      rewrite H0 in Hval. inversion Hval. reflexivity. }
    split; [exact Hk|]. split; [exact Hs | exact Hv].
  - intros info Hinfo Hclosed. unfold PythonGlyphs.mint_glyph.
    rewrite Hinfo. cbn [bind]. rewrite Hclosed. reflexivity.
  - intros info Hinfo Hopen Hnone. unfold PythonGlyphs.mint_glyph.
    rewrite Hinfo. cbn [bind]. rewrite Hopen. cbn [bind negb].
    rewrite Hnone. reflexivity.
Qed.

(** Minting 10 units of the glyph 840000:17 of [example_node], whose
    information is given, to [test_address], with no change address. *)
Lemma mint_glyph_terms_witness :
  exists tx payload,
    PythonGlyphs.mint_glyph example_node "840000:17" 10 test_address
      None 1 false None = Ok (tx, None)
    /\ vout tx = [create_glyphstone_output payload; mkCTxOut (10 * 10 ^ 2) test_script].
Proof.
  exists (mkCTransaction [mkCTxIn (repeat Byte.x01 32) 0]
            [create_glyphstone_output (b "M" ++ varint 840000 ++ varint 17 ++ varint 10);
             mkCTxOut 1000 test_script]).
  destruct (proj1 (mint_glyph_terms example_node "840000:17" 10 test_address
                     None 1 false None)
                  _ None ltac:(vm_compute; reflexivity))
    as [info [fixed [d [bh [ti [payload [value [script
         [Hi [_ [_ [_ [Hd [_ [_ [_ [Hval [_ [Hs Hv]]]]]]]]]]]]]]]]]]].
  vm_compute in Hi. inversion Hi. subst info. cbn in Hd. inversion Hd. subst d.
  rewrite (Hval ltac:(lia)) in Hv.
  vm_compute in Hs. inversion Hs. subst script.
  exists payload. split; [vm_compute; reflexivity | exact Hv].
Defined.

(** Taking what [get_glyph_balance] returns as given: a call of
    [transfer_glyph] that returns spends the input it was given and no
    other, after the balance reported for it was at least [amount]; the
    txid has 32 bytes and the output index fits 32 bits; the outputs are
    the glyphstone output of the transfer payload, then the burn output
    when the destination starts with [OP_RETURN] and else an output of
    [amount] to the destination, no nostr key having been passed, and
    nothing else.  When the input holds fewer units the call raises
    [ValueError]. *)
Theorem transfer_glyph_outputs (nd : node) (glyph_id input_txid : string)
        (input_vout amount : Z) (destination_address : string)
        (change_address : option string) (fee_per_byte : Z) (live : bool)
        (nostr_pubkey : option string) :
  (forall tx r,
      PythonGlyphs.transfer_glyph nd glyph_id input_txid input_vout amount
        destination_address change_address fee_per_byte live nostr_pubkey
      = Ok (tx, r) ->
      exists block_height tx_index balance txid payload destination,
        parse_glyph_id nd glyph_id = Ok (block_height, tx_index)
        /\ get_glyph_balance nd input_txid input_vout glyph_id = Ok balance
        /\ amount <= balance
        /\ fromhex nd input_txid = Ok txid
        /\ len txid = 32
        /\ 0 <= input_vout <= 0xffffffff
        /\ vin tx = [mkCTxIn (rev txid) input_vout]
        /\ PythonGlyphs.transfer_glyphstone_data block_height tx_index amount
           = Ok payload
        /\ (if String.prefix "OP_RETURN" destination_address
            then destination = burn_output
            else exists script,
                nonempty nostr_pubkey = false
                /\ CCoinAddress nd destination_address = Ok script
                /\ destination = mkCTxOut amount script)
        /\ vout tx = [create_glyphstone_output payload; destination])
  /\ (forall block_height tx_index balance,
         parse_glyph_id nd glyph_id = Ok (block_height, tx_index) ->
         get_glyph_balance nd input_txid input_vout glyph_id = Ok balance ->
         balance < amount ->
         PythonGlyphs.transfer_glyph nd glyph_id input_txid input_vout amount
           destination_address change_address fee_per_byte live nostr_pubkey
         = Raise ValueError).
Proof.
  split.
  - intros tx r H. unfold PythonGlyphs.transfer_glyph in H.
    bind_inv H as id Hid. destruct id as [bh ti]. cbv beta iota in H.
    bind_inv H as balance Hbal.
    destruct (balance <? amount) eqn:E; [discriminate|]. apply Z.ltb_ge in E.
    bind_inv H as payload Hp. bind_inv H as txid Htxid.
    bind_inv H as txin Hpoint. bind_inv H as dest Hd.
    apply construct_and_broadcast_inv in H.
    apply construct_transaction_ok in H.
    destruct H as [_ [_ [Hv [txin' [Hvin [-> _]]]]]].
    apply COutPoint_inv in Hpoint as [Hlen [Hn ->]].
    rewrite length_rev_len in Hlen.
    exists bh, ti, balance, txid, payload, dest.
    split; [exact Hid|]. split; [exact Hbal|]. split; [exact E|].
    split; [exact Htxid|]. split; [exact Hlen|]. split; [exact Hn|].
    split; [exact Hvin|]. split; [exact Hp|]. split; [|exact Hv].
    unfold PythonGlyphs.transfer_destination_output in Hd.
    destruct (String.prefix "OP_RETURN" destination_address).
    + inversion Hd. reflexivity.
    + bind_inv Hd as script Hs. inversion Hd.
      apply destination_script_inv in Hs as [Hk Hs].
      exists script. repeat split; assumption.
  - intros bh ti balance Hid Hbal Hlt. unfold PythonGlyphs.transfer_glyph.
    rewrite Hid. cbn [bind]. rewrite Hbal. cbn [bind].
    replace (balance <? amount) with true by (symmetry; apply Z.ltb_lt; exact Hlt).
    reflexivity.
Qed.

(** Burning 42 units held by the output 3 of [test_txid], whose balance is
    given, with no change address. *)
Lemma transfer_glyph_outputs_witness :
  exists tx payload,
    PythonGlyphs.transfer_glyph example_node "840000:17" test_txid 3 42 "OP_RETURN"
      None 1 false None = Ok (tx, None)
    /\ vin tx = [mkCTxIn (repeat Byte.x01 32) 3]
    /\ vout tx = [create_glyphstone_output payload; burn_output].
Proof.
  exists (mkCTransaction [mkCTxIn (repeat Byte.x01 32) 3]
            [create_glyphstone_output
               (b "T" ++ varint 840000 ++ varint 17 ++ varint 42 ++ varint 1);
             burn_output]).
  destruct (proj1 (transfer_glyph_outputs example_node "840000:17" test_txid 3 42
                     "OP_RETURN" None 1 false None)
                  _ None ltac:(vm_compute; reflexivity))
    as [bh [ti [balance [txid [payload [dest
         [_ [_ [_ [Hx [_ [_ [Hvin [_ [Hd Hv]]]]]]]]]]]]]]].
  vm_compute in Hx. inversion Hx. subst txid.
  cbn in Hd. subst dest.
  exists payload.
  split; [vm_compute; reflexivity|]. split; [exact Hvin | exact Hv].
Defined.

(* ------------------------------------------------------------------------- *)
(** ** Swaps as a whole *)



(** What [initiate_swap] sends and returns does not depend on the glyph
    id or on the timelock it is called with: neither reaches the script. *)
Theorem initiate_swap_ignores (nd : node) (destination_address counterparty_pubkey
                                           secret : string)
        (glyph_id glyph_id' : string) (amount timelock timelock' : Z) :
  HtlcSwaps.initiate_swap nd glyph_id amount destination_address
    counterparty_pubkey secret timelock
  = HtlcSwaps.initiate_swap nd glyph_id' amount destination_address
      counterparty_pubkey secret timelock'.
Proof.
  unfold HtlcSwaps.initiate_swap, HtlcSwaps.initiate_terms.
  destruct (PublicKey_from_hex nd counterparty_pubkey) as [receiver|e]; [|reflexivity].
  cbn [bind].
  destruct (getaddressinfo_pubkey nd destination_address) as [own|e]; [|reflexivity].
  cbn [bind].
  destruct (PublicKey_from_hex nd own) as [sender|e]; [|reflexivity].
  cbn [bind]. reflexivity.
Qed.

(* ------------------------------------------------------------------------- *)
(** ** The mint window, errors and limits *)

(** [is_mint_open] raises only [TypeError], and exactly when a cap other
    than 0 is given while [minted_count] is absent; once the minted count
    has reached such a cap it answers [False] at every height; and a glyph
    with no cap and no bounds other than 0 is open at every height from 0. *)
Theorem is_mint_open_edges (gi : glyph_info) (h : Z) :
  (forall e,
      PythonGlyphs.is_mint_open gi h = Raise e
      <-> e = TypeError
          /\ (exists cap, nonzero (mint_cap gi) = Some cap)
          /\ minted_count gi = None)
  /\ (forall cap minted,
         nonzero (mint_cap gi) = Some cap ->
         minted_count gi = Some minted ->
         cap <= minted ->
         PythonGlyphs.is_mint_open gi h = Ok false)
  /\ (nonzero (mint_cap gi) = None ->
      nonzero (start_height gi) = None -> nonzero (start_offset gi) = None ->
      nonzero (end_height gi) = None -> nonzero (end_offset gi) = None ->
      0 <= h ->
      PythonGlyphs.is_mint_open gi h = Ok true).
Proof.
  unfold PythonGlyphs.is_mint_open.
  rewrite start_height_eq, end_height_eq, truthy_nonzero.
  split; [|split].
  - intros e. destruct (nonzero (mint_cap gi)) as [cap|] eqn:Ec.
    + destruct (minted_count gi) as [m|].
      * cbn [bind]. destruct (get (mint_cap gi) 0 <=? m); cbn;
          (split; [discriminate | intros [_ [_ H]]; discriminate]).
      * cbn [bind]. split.
        -- intros H. inversion H. repeat split. exists cap. reflexivity.
        -- intros [-> _]. reflexivity.
    + cbn [bind]. split; [discriminate | intros [_ [[cap H] _]]; discriminate].
  - intros cap minted Hc Hm Hle. rewrite Hc, Hm.
    apply nonzero_get in Hc as [Hg _]. rewrite Hg.
    replace (cap <=? minted) with true by (symmetry; apply Z.leb_le; exact Hle).
    reflexivity.
  - intros Hc Hs Ho He Hf Hh. rewrite Hc. cbn [bind].
    unfold effective_start, effective_end. rewrite Hs, Ho, He, Hf. cbn [lt_bound].
    replace (0 <=? h) with true by (symmetry; apply Z.leb_le; exact Hh).
    reflexivity.
Qed.

Lemma is_mint_open_edges_witness :
  PythonGlyphs.is_mint_open
    (mkGlyphInfo (Some 840000) None (Some 2) (Some 1000) None None None None None)
    840001 = Raise TypeError
  /\ PythonGlyphs.is_mint_open
       (mkGlyphInfo (Some 840000) (Some 1000) (Some 2) (Some 1000) None None None None None)
       840001 = Ok false
  /\ PythonGlyphs.is_mint_open
       (mkGlyphInfo (Some 840000) (Some 0) (Some 2) None None (Some 0) None None None)
       840001 = Ok true.
Proof.
  split; [|split].
  - apply (proj1 (is_mint_open_edges
                    (mkGlyphInfo (Some 840000) None (Some 2) (Some 1000) None None
                                 None None None) 840001)).
    split; [reflexivity|]. split; [exists 1000; reflexivity | reflexivity].
  - apply (proj1 (proj2 (is_mint_open_edges
                           (mkGlyphInfo (Some 840000) (Some 1000) (Some 2) (Some 1000)
                                        None None None None None) 840001))
                 1000 1000); [reflexivity | reflexivity | lia].
  - apply (proj2 (proj2 (is_mint_open_edges
                           (mkGlyphInfo (Some 840000) (Some 0) (Some 2) None None
                                        (Some 0) None None None) 840001)));
      try reflexivity. lia.
Defined.

(* ------------------------------------------------------------------------- *)
(** ** Reading a balance *)

(** [decode_glyph_balance] returns no balance on any input: it raises
    [IndexError] on empty data, [ValueError] when the data does not start
    with [T], and [TypeError] otherwise, where it unpacks the integer
    [decode_varint] returned as a pair. *)
Theorem decode_glyph_balance_errors (glyphstone_data : bytes) (glyph_id : string) :
  decode_glyph_balance glyphstone_data glyph_id
  = match glyphstone_data with
    | [] => Raise IndexError
    | tag :: _ => if byte.unsigned tag =? 84 then Raise TypeError else Raise ValueError
    end.
Proof.
  unfold decode_glyph_balance. destruct glyphstone_data as [|tag data]; [reflexivity|].
  destruct (byte.unsigned tag =? 84); reflexivity.
Qed.

(* ------------------------------------------------------------------------- *)
(** ** Reading an etch and querying the chain *)

(** [decode_glyphstone] returns no glyph on any input: it raises
    [IndexError] on empty data, [ValueError] when the data does not start
    with [E], and [TypeError] otherwise, where it unpacks the integer
    [decode_varint] returned as a pair. *)
Theorem decode_glyphstone_errors (glyphstone_data : bytes) (etch_height : Z) :
  decode_glyphstone glyphstone_data etch_height
  = match glyphstone_data with
    | [] => Raise IndexError
    | tag :: _ => if byte.unsigned tag =? 69 then Raise TypeError else Raise ValueError
    end.
Proof.
  unfold decode_glyphstone. destruct glyphstone_data as [|tag data]; [reflexivity|].
  destruct (byte.unsigned tag =? 69); reflexivity.
Qed.

Lemma chain_get_glyph_balance_raises (r : rpc) (nd : node) (txid : string) (vout : Z)
      (glyph_id : string) :
  exists e, Chain.get_glyph_balance r nd txid vout glyph_id = Raise e.
Proof.
  unfold Chain.get_glyph_balance.
  destruct (getrawtransaction r txid) as [outputs|]; [|eexists; reflexivity].
  destruct (len outputs <=? vout); [eexists; reflexivity|].
  destruct (list_getitem outputs vout) as [spk|e]; [|eexists; reflexivity].
  cbn [bind].
  destruct (gettxout r txid vout); [|eexists; reflexivity].
  destruct (negb (String.eqb (spk_type spk) "nulldata")); [eexists; reflexivity|].
  destruct ((len (spk_asm_parts spk) <? 3)
            || negb (String.eqb (nth 1 (spk_asm_parts spk) EmptyString) "OP_13"));
    [eexists; reflexivity|].
  destruct (fromhex nd (nth 2 (spk_asm_parts spk) EmptyString)) as [data|e];
    [|eexists; reflexivity].
  cbn [bind]. apply decode_glyph_balance_raises.
Qed.

Lemma decode_glyphstone_raises (glyphstone_data : bytes) (etch_height : Z) :
  exists e, decode_glyphstone glyphstone_data etch_height = Raise e.
Proof.
  unfold decode_glyphstone. destruct glyphstone_data as [|tag data]; [eexists; reflexivity|].
  destruct (negb (byte.unsigned tag =? 69)); eexists; reflexivity.
Qed.

Lemma chain_get_glyph_info_raises (r : rpc) (nd : node) (glyph_id : string)
      (glyph : etched) :
  Chain.get_glyph_info r nd glyph_id <> Reply (Ok glyph).
Proof.
  unfold Chain.get_glyph_info.
  destruct (parse_glyph_id nd glyph_id) as [[bh ti]|e]; [|discriminate].
  destruct (getblockhash r bh) as [block_hash|]; [|discriminate].
  destruct (getblock r block_hash) as [txs|]; [|discriminate].
  destruct (len txs <=? ti); [discriminate|].
  destruct (list_getitem txs ti) as [transaction|e]; [|discriminate]. cbn [bind].
  destruct (Chain.find_glyphstone nd transaction) as [[[|c data]|]|e];
    cbn [bind]; try discriminate.
  destruct (decode_glyphstone_raises (c :: data) bh) as [e He]. rewrite He. discriminate.
Qed.

(** Neither chain query ever returns: [get_glyph_balance] and
    [get_glyph_info] end by raising whatever the node answers.  Hence, on a
    node whose glyph balances are those [get_glyph_balance] computes,
    [transfer_glyph] builds no transaction, and on a node whose glyph
    information is what [get_glyph_info] computes, neither does
    [mint_glyph]. *)
Theorem chain_queries_never_return (r : rpc) (nd : node) :
  (forall txid vout glyph_id balance,
      Chain.get_glyph_balance r nd txid vout glyph_id <> Ok balance)
  /\ (forall glyph_id glyph, Chain.get_glyph_info r nd glyph_id <> Reply (Ok glyph))
  /\ ((forall txid vout glyph_id balance,
          get_glyph_balance nd txid vout glyph_id = Ok balance ->
          Chain.get_glyph_balance r nd txid vout glyph_id = Ok balance) ->
      forall glyph_id input_txid input_vout amount destination_address
             change_address fee_per_byte live nostr_pubkey,
      exists e,
        PythonGlyphs.transfer_glyph nd glyph_id input_txid input_vout amount
          destination_address change_address fee_per_byte live nostr_pubkey
        = Raise e)
  /\ ((forall glyph_id info,
          get_glyph_info nd glyph_id = Ok info ->
          exists glyph,
            Chain.get_glyph_info r nd glyph_id = Reply (Ok glyph)
            /\ etched_info glyph = info) ->
      forall glyph_id amount destination_address change_address fee_per_byte live
             nostr_pubkey,
      exists e,
        PythonGlyphs.mint_glyph nd glyph_id amount destination_address
          change_address fee_per_byte live nostr_pubkey = Raise e).
Proof.
  assert (Hbal : forall txid vout glyph_id balance,
             Chain.get_glyph_balance r nd txid vout glyph_id <> Ok balance).
  { intros txid vout glyph_id balance H.
    destruct (chain_get_glyph_balance_raises r nd txid vout glyph_id) as [e He].
    rewrite He in H. discriminate. }
  split; [exact Hbal|]. split; [apply chain_get_glyph_info_raises|]. split.
  - intros Hagree glyph_id input_txid input_vout amount dst ca fee live nostr.
    unfold PythonGlyphs.transfer_glyph.
    destruct (parse_glyph_id nd glyph_id) as [[bh ti]|e]; [|eexists; reflexivity].
    cbn [bind].
    destruct (get_glyph_balance nd input_txid input_vout glyph_id) as [balance|e] eqn:E;
      [|eexists; reflexivity].
    apply Hagree in E. apply Hbal in E. destruct E.
  - intros Hagree glyph_id amount dst ca fee live nostr.
    unfold PythonGlyphs.mint_glyph.
    destruct (get_glyph_info nd glyph_id) as [info|e] eqn:E; [|eexists; reflexivity].
    destruct (Hagree _ _ E) as [glyph [Hg _]].
    apply chain_get_glyph_info_raises in Hg. destruct Hg.
Qed.

(** The glyph information depends on the node through [int] and
    [bytes.fromhex] only. *)
Lemma chain_get_glyph_info_ext (r : rpc) (nd nd' : node) (glyph_id : string) :
  (forall s, int_of_str nd s = int_of_str nd' s) ->
  (forall s, fromhex nd s = fromhex nd' s) ->
  Chain.get_glyph_info r nd glyph_id = Chain.get_glyph_info r nd' glyph_id.
Proof.
  intros Hint Hhex.
  assert (Hfind : forall outputs,
             Chain.find_glyphstone nd outputs = Chain.find_glyphstone nd' outputs).
  { induction outputs as [|spk outputs IH]; [reflexivity|].
    cbn [Chain.find_glyphstone]. rewrite IH, Hhex. reflexivity. }
  assert (Hparse : parse_glyph_id nd glyph_id = parse_glyph_id nd' glyph_id).
  { unfold parse_glyph_id.
    destruct (split_colon glyph_id) as [|x [|y [|z rest]]]; rewrite ?Hint; reflexivity. }
  unfold Chain.get_glyph_info. rewrite Hparse.
  destruct (parse_glyph_id nd' glyph_id) as [[bh ti]|e]; [|reflexivity].
  destruct (getblockhash r bh) as [block_hash|]; [|reflexivity].
  destruct (getblock r block_hash) as [txs|]; [|reflexivity].
  destruct (len txs <=? ti); [reflexivity|].
  destruct (list_getitem txs ti) as [transaction|e]; [|reflexivity]. cbn [bind].
  rewrite Hfind. reflexivity.
Qed.

Lemma chain_queries_never_return_witness :
  (exists e,
      PythonGlyphs.transfer_glyph chain_node "840000:17" "cd" 0 42 "tb1qdest"
        (Some "tb1qchange"%string) 1 false None = Raise e)
  /\ (exists e,
         PythonGlyphs.mint_glyph chain_node "840000:17" 10 "tb1qdest"
           (Some "tb1qchange"%string) 1 false None = Raise e).
Proof.
  split.
  - apply (proj1 (proj2 (proj2 (chain_queries_never_return example_rpc chain_node)))).
    intros txid vout glyph_id balance H. exact H.
  - apply (proj2 (proj2 (proj2 (chain_queries_never_return example_rpc chain_node)))).
    intros glyph_id info H. cbn [get_glyph_info chain_node] in H.
    rewrite (chain_get_glyph_info_ext example_rpc chain_node example_node)
      by reflexivity.
    destruct (Chain.get_glyph_info example_rpc example_node glyph_id) as [[glyph|e]|];
      try discriminate.
    inversion H. exists glyph. split; reflexivity.
Defined.

(* ------------------------------------------------------------------------- *)
(** ** Streams the decoder takes alike *)

Lemma base128_app (run rest : bytes) :
  base128 (run ++ rest) = base128 run + 128 ^ len run * base128 rest.
Proof.
  induction run as [|byte run IH].
  - cbn [app base128]. change (len (@nil Init.Byte.byte)) with 0. lia.
  - cbn [app base128]. rewrite IH, len_cons.
    rewrite Z.pow_add_r by (try apply len_nonneg; lia). ring.
Qed.

Lemma set_continuation (last : byte) :
  continues (byte.of_Z (Z.lor (byte.unsigned last) 0x80)) = true
  /\ Z.land (byte.unsigned (byte.of_Z (Z.lor (byte.unsigned last) 0x80))) 0x7F
     = Z.land (byte.unsigned last) 0x7F.
Proof. destruct last; split; vm_compute; reflexivity. Qed.

(** [decode_varint] also takes varints that [encode_varint] never writes:
    setting the continuation bit of the closing byte and adding a zero
    byte leaves the value as it was. *)
Theorem decode_varint_padding (run : bytes) (last : byte) (rest : bytes) :
  forallb continues run = true ->
  continues last = false ->
  decode_varint
    (run ++ byte.of_Z (Z.lor (byte.unsigned last) 0x80) :: Byte.x00 :: rest)
  = decode_varint (run ++ last :: rest).
Proof.
  intros Hrun Hlast. unfold decode_varint. f_equal.
  destruct (set_continuation last) as [Hc Hl].
  rewrite (decode_varint_loop_closed run last rest 0 0) by (try lia; assumption).
  replace (run ++ byte.of_Z (Z.lor (byte.unsigned last) 0x80) :: Byte.x00 :: rest)
    with ((run ++ [byte.of_Z (Z.lor (byte.unsigned last) 0x80)]) ++ Byte.x00 :: rest)
    by (rewrite <- app_assoc; reflexivity).
  rewrite decode_varint_loop_closed.
  - cbn [fst]. f_equal. f_equal.
    rewrite <- app_assoc, !base128_app. cbn [app base128]. rewrite Hl.
    change (Z.land (byte.unsigned Byte.x00) 127) with 0. lia.
  - lia.
  - rewrite forallb_app, Hrun. cbn [forallb]. rewrite Hc. reflexivity.
  - reflexivity.
Qed.

(** 0xAC 0x02 and 0xAC 0x82 0x00 both read as 300. *)
Lemma decode_varint_padding_witness :
  decode_varint [Byte.xac; Byte.x82; Byte.x00] = decode_varint [Byte.xac; Byte.x02]
  /\ decode_varint [Byte.xac; Byte.x02] = Ok 300.
Proof.
  split; [|reflexivity].
  apply (decode_varint_padding [Byte.xac] Byte.x02 []); reflexivity.
Defined.
